(** * parseyu: the hierarchical table parser of checktools

    A shallow embedding of [src/checktools/tools/parseyu.py]: the class
    [RowData], the class [HirarchicalTableParser] and the Python string and
    regular-expression primitives they call.

    Conventions of the embedding.
    - Python objects live in a heap.  A [RowData] instance is a reference
      ([ref], an index into the heap); object identity ([is], and [==] on
      rows, which define no [__eq__]) is equality of references.
    - Every row owns exactly one [data] dictionary (the keyword dictionary
      of its constructor call), so a reference to that dictionary is the
      reference of its row.
    - Python dictionaries are finite maps ([gmap]); where the order of
      insertion is observable (the loop of [__init__]) the ordered list of
      items is kept next to the map.
    - Text is 7-bit ASCII: [string] with the character classes of Python 3
      restricted to code points below 128.
    - A float is represented by the exact rational value of the decimal
      text it is read from. *)

From Stdlib Require Import ZArith QArith Ascii String.
From stdpp Require Import base option list strings gmap.

Local Open Scope string_scope.
Local Open Scope list_scope.
Local Open Scope nat_scope.

(** ** Python text primitives *)

Module PyStr.

Definition code (c : ascii) : nat := nat_of_ascii c.

(** [str.isspace] and the class [\s] of [re], below 128. *)
Definition is_space (c : ascii) : bool :=
  let n := code c in
  ((9 <=? n) && (n <=? 13)) || ((28 <=? n) && (n <=? 32)).

(** The class [\d] of [re], below 128. *)
Definition is_digit (c : ascii) : bool :=
  let n := code c in (48 <=? n) && (n <=? 57).

Definition is_upper (c : ascii) : bool :=
  let n := code c in (65 <=? n) && (n <=? 90).

Definition lower_char (c : ascii) : ascii :=
  if is_upper c then ascii_of_nat (code c + 32) else c.

(** [s.lower()] *)
Fixpoint lower (s : string) : string :=
  match s with
  | EmptyString => EmptyString
  | String c r => String (lower_char c) (lower r)
  end.

(** [c in chars] for a character [c] *)
Fixpoint mem_char (c : ascii) (chars : string) : bool :=
  match chars with
  | EmptyString => false
  | String d r => if Ascii.eqb c d then true else mem_char c r
  end.

(** The longest prefix whose characters satisfy [p], and the rest. *)
Fixpoint span (p : ascii -> bool) (s : string) : string * string :=
  match s with
  | EmptyString => (EmptyString, EmptyString)
  | String c r =>
      if p c then let '(a, b) := span p r in (String c a, b)
      else (EmptyString, s)
  end.

Fixpoint drop_while (p : ascii -> bool) (s : string) : string :=
  match s with
  | EmptyString => EmptyString
  | String c r => if p c then drop_while p r else s
  end.

(** [s.lstrip(chars)]: [chars] is a SET of characters, every leading
    character that belongs to it is removed. *)
Definition lstrip (chars : string) (s : string) : string :=
  drop_while (fun c => mem_char c chars) s.

(** [s.lstrip()] *)
Definition lstrip_ws (s : string) : string := drop_while is_space s.

(** [s.rstrip()] *)
Fixpoint rstrip_ws (s : string) : string :=
  match s with
  | EmptyString => EmptyString
  | String c r =>
      match rstrip_ws r with
      | EmptyString => if is_space c then EmptyString else String c EmptyString
      | r' => String c r'
      end
  end.

(** [s.strip()] *)
Definition strip (s : string) : string := rstrip_ws (lstrip_ws s).

(** [re.sub('\s+', ' ', s)]: every maximal run of whitespace becomes one
    blank.  [in_run] tells that the previous character was whitespace,
    already replaced. *)
Fixpoint collapse_from (in_run : bool) (s : string) : string :=
  match s with
  | EmptyString => EmptyString
  | String c r =>
      if is_space c then
        if in_run then collapse_from true r
        else String " " (collapse_from true r)
      else String c (collapse_from false r)
  end.

Definition collapse_ws (s : string) : string := collapse_from false s.

Fixpoint take (n : nat) (s : string) : string :=
  match n, s with
  | S n', String c r => String c (take n' r)
  | _, _ => EmptyString
  end.

Fixpoint drop (n : nat) (s : string) : string :=
  match n, s with
  | S n', String _ r => drop n' r
  | _, _ => s
  end.

(** How many times [u] literally prefixes [s], one copy after the other
    ([fuel] bounds the number of copies looked for). *)
Fixpoint count_prefix (fuel : nat) (u s : string) : nat :=
  match fuel with
  | 0 => 0
  | S f =>
      if String.prefix u s then S (count_prefix f u (drop (String.length u) s))
      else 0
  end.

(** The string made of [n] copies of the character [c]. *)
Fixpoint replicate (n : nat) (c : ascii) : string :=
  match n with
  | 0 => EmptyString
  | S n' => String c (replicate n' c)
  end.

End PyStr.

(** ** Floats read from decimal text *)

Module PyFloat.

Definition digit_val (c : ascii) : Z := Z.of_nat (PyStr.code c - 48).

(** The integer written by a string of decimal digits, after the digits
    already read as [acc]. *)
Fixpoint digits_val (acc : Z) (s : string) : Z :=
  match s with
  | EmptyString => acc
  | String c r => digits_val (10 * acc + digit_val c)%Z r
  end.

(** [float(v)] for a text [v] of the shape [digits . digits] (the only
    shape the column pattern captures): the digits without the point,
    over ten to the number of digits after the point, in lowest terms. *)
Definition of_decimal (v : string) : Q :=
  let '(ip, r) := PyStr.span PyStr.is_digit v in
  let fp := PyStr.drop 1 r in
  Qred (digits_val 0 (String.append ip fp) # Z.to_pos (10 ^ Z.of_nat (String.length fp))).

End PyFloat.

(** ** The row pattern of the parser *)

Module PyRe.

Import PyStr.

(** One data column (the group [\d+\.\d*], then [\s*]) followed by what [k] matches, at the
    start of a text [ip ++ "." ++ r2] whose integer part [ip] has been
    read.  [\d*] is greedy: it first takes all [j] digits that follow the
    point and gives them back one by one while [k] fails.  The captured
    text is returned in front of the captures of [k]. *)
Fixpoint try_frac (k : string -> option (list string))
    (ip r2 : string) (j : nat) : option (list string) :=
  match k (lstrip_ws (drop j r2)) with
  | Some cs => Some (String.append ip (String "." (take j r2)) :: cs)
  | None =>
      match j with
      | 0 => None
      | S j' => try_frac k ip r2 j'
      end
  end.

(** [n] data columns at the start of [s]: the captured texts of the
    first match in the order a backtracking matcher tries them.  [\d+]
    takes the whole run of digits (with fewer, the point would have to
    match a digit), [\s*] the whole run of whitespace (with less, the
    next column would have to start on whitespace). *)
Fixpoint match_cols (n : nat) (s : string) : option (list string) :=
  match n with
  | 0 => Some []
  | S n' =>
      let '(ip, r1) := span is_digit s in
      match ip, r1 with
      | String _ _, String "." r2 =>
          try_frac (match_cols n') ip r2
            (String.length (fst (span is_digit r2)))
      | _, _ => None
      end
  end.

(** The lazy [.*?] of the name column: [acc] has been consumed, one more
    character (never a newline) is taken each time the columns do not
    match at the current position. *)
Fixpoint scan_name (n : nat) (acc s : string) : option (string * list string) :=
  match match_cols n s with
  | Some cs => Some (acc, cs)
  | None =>
      match s with
      | EmptyString => None
      | String c r =>
          if Ascii.eqb c "010" then None
          else scan_name n (String.append acc (String c EmptyString)) r
      end
  end.

(** [row_regex.search(line)] for the pattern
    [^(\s*.*?)] followed by [n] data columns: the groups of
    the match, the name capture first, or [None]. *)
Definition search (n : nat) (line : string) : option (string * list string) :=
  let '(ws, r) := span is_space line in
  scan_name n ws r.

End PyRe.

(** ** Objects, exceptions and the monad of heap-manipulating code *)

(** A reference to a [RowData] instance. *)
Definition ref := nat.

(** The argument of [raise ValueError(...)], one constructor per message of
    the source. *)
Inductive value_error :=
| CannotOverwrite (key : string)      (* 'Cannot overwrite attribute {}.' *)
| SetChildrenDirectly                 (* 'Do not set children directly ...' *)
| ParentSetTwice                      (* 'Do not set parent of RowData multiple times.' *)
| ParentNotRow                        (* 'Parent must be an instance of RowData.' *)
| ChildNotRow                         (* 'Child must be an instance of RowData.' *)
| Circular                            (* 'Circular relationship.' *)
| LevelSkipped (depth : nat) (parent_depth : Z).
    (* 'A hirarchical level was skipped! Found element of depth {}.
        However parent element is of depth {}.' *)

Inductive exn :=
| ValueError (e : value_error)
| IndexError (key : string)           (* 'No element with name {} found.' *)
| KeyError (key : string)
| AttributeError
| TypeError
| ZeroDivisionError
| RecursionError.

Inductive result (A : Type) :=
| Ok (a : A)
| Raise (e : exn).
Arguments Ok {A} a.
Arguments Raise {A} e.

(** A computation over a mutable state [S]: the state it leaves (also when
    it raises: what was mutated before the exception stays mutated) and its
    outcome. *)
Definition M (S A : Type) : Type := S -> S * result A.

Definition ret {S A} (a : A) : M S A := fun s => (s, Ok a).
Definition raise {S A} (e : exn) : M S A := fun s => (s, Raise e).
Definition bind {S A B} (m : M S A) (k : A -> M S B) : M S B :=
  fun s => match m s with
           | (s', Ok a) => k a s'
           | (s', Raise e) => (s', Raise e)
           end.
Definition get {S} : M S S := fun s => (s, Ok s).
Definition modify {S} (f : S -> S) : M S unit := fun s => (f s, Ok tt).

(** [try: m except IndexError: pass] *)
Definition except_IndexError_pass {S} (m : M S unit) : M S unit :=
  fun s => match m s with
           | (s', Raise (IndexError _)) => (s', Ok tt)
           | out => out
           end.

Declare Scope py_scope.
Delimit Scope py_scope with py.
Notation "x <- m ;; k" := (bind m (fun x => k))
  (at level 100, m at next level, right associativity) : py_scope.
Notation "m ;;; k" := (bind m (fun _ => k))
  (at level 100, right associativity) : py_scope.
Local Open Scope py_scope.

(** A value stored in a [data] dictionary: a float, or the [data]
    dictionary of the row [r] (what [as_dict] stores for a child). *)
Inductive dval :=
| DFloat (x : Q)
| DDict (r : ref).

(** An instance of the class [RowData]: the attributes [name], [data],
    [_parent], [_children], and in [attrs] the attributes that [__init__]
    adds with [setattr]. *)
Record RowData := mkRow {
  name : string;
  data : gmap string dval;
  attrs : gmap string Q;
  _parent : option ref;
  _children : list ref
}.

#[global] Instance RowData_inhabited : Inhabited RowData :=
  populate (mkRow "" ∅ ∅ None []).

(** The heap of rows; a new row is allocated at the end.  The references
    of a Python state always point into the heap; on a dangling one the
    model reads the empty row and writes nothing. *)
Definition heap := list RowData.

Definition row (h : heap) (r : ref) : RowData := h !!! r.

(** A Python object handed to a method that tests [isinstance]. *)
Inductive pyobj :=
| ORow (r : ref)
| ONone
| OFloat (x : Q)
| OStr (s : string).

(** ** The class [RowData] *)

Module Row.

(** The properties of the class. *)
Definition properties : list string :=
  ["children"; "child_names"; "child_dict"; "parent"].

(** The other names an instance finds in its class: the methods of the
    class body, and what every class has of its own or inherits from
    [object] (CPython 3.11 and 3.12). *)
Definition class_attrs : list string :=
  ["__init__"; "__str__"; "__repr__"; "set_child_parent_relation";
   "has_parent"; "has_children"; "get_child_depth"; "get_parents";
   "add_child"; "as_dict"; "__getitem__";
   "__class__"; "__delattr__"; "__dict__"; "__dir__"; "__doc__"; "__eq__";
   "__format__"; "__ge__"; "__getattribute__"; "__getstate__"; "__gt__";
   "__hash__"; "__init_subclass__"; "__le__"; "__lt__"; "__module__";
   "__ne__"; "__new__"; "__reduce__"; "__reduce_ex__"; "__setattr__";
   "__sizeof__"; "__subclasshook__"; "__weakref__"].

Definition with_parent (p : option ref) (r : RowData) : RowData :=
  mkRow (name r) (data r) (attrs r) p (_children r).

Definition with_children (cs : list ref) (r : RowData) : RowData :=
  mkRow (name r) (data r) (attrs r) (_parent r) cs.

Definition with_data (d : gmap string dval) (r : RowData) : RowData :=
  mkRow (name r) d (attrs r) (_parent r) (_children r).

(** *** [__init__]

    While the loop of [__init__] runs, the instance has the attributes
    [name] and [data] and those set so far ([dyn]); [_parent] and
    [_children] are not assigned yet, so a property getter that reads
    them raises the [AttributeError] that [hasattr] turns into [False],
    unless a keyword of that very name was set before. *)

(** [hasattr(self, key)] inside the loop. *)
Definition init_hasattr (dyn : gmap string Q) (key : string) : result bool :=
  if bool_decide (key ∈ ["name"; "data"]) then Ok true
  else if bool_decide (is_Some (dyn !! key)) then Ok true
  else if bool_decide (key = "children") then
    Ok (bool_decide (is_Some (dyn !! "_children")))
  else if bool_decide (key = "parent") then
    Ok (bool_decide (is_Some (dyn !! "_parent")))
  else if bool_decide (key ∈ ["child_names"; "child_dict"]) then
    (* the getter iterates over [self.children]: a float is not iterable *)
    if bool_decide (is_Some (dyn !! "_children")) then Raise TypeError
    else Ok false
  else Ok (bool_decide (key ∈ class_attrs)).

(** [setattr(self, key, value)] inside the loop, reached when [hasattr]
    answered [False]. *)
Definition init_setattr (dyn : gmap string Q) (key : string) (value : Q)
    : result (gmap string Q) :=
  if bool_decide (key = "children") then
    (* the setter reads [self._parent] *)
    if bool_decide (is_Some (dyn !! "_parent"))
    then Raise (ValueError SetChildrenDirectly)
    else Raise AttributeError
  else if bool_decide (key = "parent") then Raise AttributeError
  else if bool_decide (key ∈ ["child_names"; "child_dict"]) then
    Raise AttributeError
  else Ok (<[key := value]> dyn).

(** The loop [for key, value in data.items()]. *)
Fixpoint init_loop (dyn : gmap string Q) (items : list (string * Q))
    : result (gmap string Q) :=
  match items with
  | [] => Ok dyn
  | (key, value) :: rest =>
      let key := PyStr.lower key in
      match init_hasattr dyn key with
      | Raise e => Raise e
      | Ok true => Raise (ValueError (CannotOverwrite key))
      | Ok false =>
          match init_setattr dyn key value with
          | Raise e => Raise e
          | Ok dyn' => init_loop dyn' rest
          end
      end
  end.

(** [RowData(name, **data)], with the items of [data] in the order of
    the dictionary (their keys are distinct).  A keyword that names a
    positional parameter is refused by the call itself.  The last two
    assignments of [__init__] replace a keyword attribute of the same
    name.  The new instance is allocated at the end of the heap. *)
Definition new (nm : string) (items : list (string * Q)) : M heap ref :=
  fun h =>
    if bool_decide (Exists (fun kv => kv.1 = "self" ∨ kv.1 = "name") items)
    then (h, Raise TypeError)
    else
      match init_loop ∅ items with
      | Raise e => (h, Raise e)
      | Ok dyn =>
          let r := mkRow nm (list_to_map (prod_map id DFloat <$> items))
                     (delete "_children" (delete "_parent" dyn)) None [] in
          (h ++ [r], Ok (length h))
      end.

(** *** Properties *)

Definition children (h : heap) (self : ref) : list ref :=
  _children (row h self).

Definition child_names (h : heap) (self : ref) : list string :=
  (fun c => name (row h c)) <$> children h self.

(** [{c.name: c for c in self.children}]: a later child replaces an
    earlier one of the same name. *)
Definition child_dict (h : heap) (self : ref) : gmap string ref :=
  list_to_map (reverse ((fun c => (name (row h c), c)) <$> children h self)).

Definition parent (h : heap) (self : ref) : option ref :=
  _parent (row h self).

(** The setter of [parent]. *)
Definition set_parent (self : ref) (parent : pyobj) : M heap unit :=
  fun h =>
    if bool_decide (_parent (row h self) ≠ None)
    then (h, Raise (ValueError ParentSetTwice))
    else
      match parent with
      | ORow p =>
          if bool_decide (Row.parent h p = Some self)
          then (h, Raise (ValueError Circular))
          else (alter (with_parent (Some p)) self h, Ok tt)
      | _ => (h, Raise (ValueError ParentNotRow))
      end.

Definition add_child (self : ref) (child : pyobj) : M heap unit :=
  fun h =>
    match child with
    | ORow c =>
        if bool_decide (self ∈ children h c)
        then (h, Raise (ValueError Circular))
        else (alter (fun r => with_children (_children r ++ [c]) r) self h,
              Ok tt)
    | _ => (h, Raise (ValueError ChildNotRow))
    end.

Definition set_child_parent_relation (child parent : ref) : M heap unit :=
  set_parent child (ORow parent) ;;;
  add_child parent (ORow child).

Definition has_parent (h : heap) (self : ref) : bool :=
  bool_decide (parent h self ≠ None).

Definition has_children (h : heap) (self : ref) : bool :=
  bool_decide (children h self ≠ []).

(** *** [get_parents]

    Lists built by [get_parents] are objects of their own: [lists] is the
    store of these objects, a list being known by its location.  The
    default value of the parameter [parents] is ONE list object, created
    when the [def] is executed and handed to every call that passes no
    accumulator; it lives at [default_parents]. *)

Definition lists := list (list ref).

Definition default_parents : nat := 0.

(** The store once the class body has been executed. *)
Definition lists_init : lists := [[]].

Definition content (s : lists) (l : nat) : list ref := s !!! l.

(** [[x] + parents]: a new list object. *)
Definition cons_new (x : ref) (parents : nat) : M lists nat :=
  fun s => (s ++ [x :: content s parents], Ok (length s)).

(** [self.get_parents(parents)]; [limit] is the depth of recursion the
    interpreter still allows.  On a row without parent, looking up
    [get_parents] on [None] raises the [AttributeError] that the handler
    turns into [return parents]: the very object received. *)
Fixpoint get_parents (limit : nat) (h : heap) (self : ref) (parents : nat)
    : M lists nat :=
  match limit with
  | 0 => raise RecursionError
  | S limit' =>
      match parent h self with
      | None => ret parents
      | Some p =>
          l <- cons_new p parents ;;
          get_parents limit' h p l
      end
  end.

(** [self.get_parents()] *)
Definition get_parents_default (limit : nat) (h : heap) (self : ref)
    : M lists nat :=
  get_parents limit h self default_parents.

(** *** [as_dict] *)

Fixpoint mapM {S A B} (f : A -> M S B) (l : list A) : M S (list B) :=
  match l with
  | [] => ret []
  | x :: r => y <- f x ;; ys <- mapM f r ;; ret (y :: ys)
  end.

(** [d.update(e)] for the items [e] of a dictionary display, in order. *)
Definition dict_update (e : list (string * dval)) (d : gmap string dval)
    : gmap string dval :=
  list_to_map (reverse e) ∪ d.

(** [self.as_dict()]: [d] is the object [self.data] itself, which
    [update] changes in place; the result is that object, known by the
    reference of its row. *)
Fixpoint as_dict (limit : nat) (self : ref) : M heap ref :=
  match limit with
  | 0 => raise RecursionError
  | S limit' =>
      h <- get ;;
      e <- mapM (fun c => d <- as_dict limit' c ;;
                          h' <- get ;;
                          ret (name (row h' c), DDict d))
                (children h self) ;;
      modify (alter (fun r => with_data (dict_update e (data r)) r) self) ;;;
      ret self
  end.

(** *** [__getitem__] *)

(** What [getattr] can return on a row. *)
Inductive pyval :=
| VFloat (x : Q)
| VStr (s : string)
| VNone
| VRow (r : ref)
| VRows (rs : list ref)               (* the list [_children] *)
| VNames (ns : list string)           (* the list [child_names] *)
| VChildDict (d : gmap string ref)
| VData (r : ref)                     (* the dictionary [data] of row [r] *)
| VClassAttr (r : ref) (a : string).  (* a method or class attribute, bound to [r] *)

Definition of_parent (p : option ref) : pyval :=
  match p with Some r => VRow r | None => VNone end.

(** [getattr(self, a)] on a constructed row, [None] when [hasattr]
    answers [False]. *)
Definition getattr (h : heap) (self : ref) (a : string) : option pyval :=
  if bool_decide (a = "children") then Some (VRows (children h self))
  else if bool_decide (a = "child_names") then Some (VNames (child_names h self))
  else if bool_decide (a = "child_dict") then Some (VChildDict (child_dict h self))
  else if bool_decide (a = "parent") then Some (of_parent (parent h self))
  else if bool_decide (a = "name") then Some (VStr (name (row h self)))
  else if bool_decide (a = "data") then Some (VData self)
  else if bool_decide (a = "_parent") then Some (of_parent (parent h self))
  else if bool_decide (a = "_children") then Some (VRows (children h self))
  else match attrs (row h self) !! a with
       | Some x => Some (VFloat x)
       | None =>
           if bool_decide (a ∈ class_attrs) then Some (VClassAttr self a)
           else None
       end.

Definition hasattr (h : heap) (self : ref) (a : string) : bool :=
  bool_decide (is_Some (getattr h self a)).

(** [self[key]] *)
Definition getitem (h : heap) (self : ref) (key : string) : result pyval :=
  match getattr h self key with
  | Some v => Ok v
  | None =>
      match getattr h self (PyStr.lower key) with
      | Some v => Ok v
      | None =>
          if bool_decide (key ∈ child_names h self) then
            match child_dict h self !! key with
            | Some c => Ok (VRow c)
            | None => Raise (KeyError key)
            end
          else Raise (IndexError key)
      end
  end.

(** *** [get_child_depth] *)

(** The loop [for child in self.children] of [get_child_depth]: [f] is
    the recursive call on a child, [max_depth] the variable of that
    name. *)
Fixpoint child_depth_loop (f : ref -> result nat) (cs : list ref)
    (max_depth : nat) : result nat :=
  match cs with
  | [] => Ok max_depth
  | c :: rest =>
      match f c with
      | Raise e => Raise e
      | Ok d => child_depth_loop f rest (if max_depth <? d then d else max_depth)
      end
  end.

(** [self.get_child_depth(depth)]; it only reads the rows.  [limit] is the
    depth of recursion the interpreter still allows. *)
Fixpoint get_child_depth (limit : nat) (h : heap) (self : ref) (depth : nat)
    : result nat :=
  match limit with
  | 0 => Raise RecursionError
  | S limit' =>
      child_depth_loop (fun c => get_child_depth limit' h c (depth + 1))
        (children h self) depth
  end.

End Row.

(** ** The class [HirarchicalTableParser] *)

(** An instance of the parser: the two constructor arguments and the list
    [rows], which [parse_lines] extends.  ([col_names] and [row_regex] are
    functions of [data_col_names].) *)
Record HirarchicalTableParser := mkParser {
  data_col_names : list string;
  subcategory_indention : string;
  rows : list ref
}.

Module Parser.

(** [HirarchicalTableParser(data_col_names, subcategory_indention)] *)
Definition new (cols : list string) (ind : string) : HirarchicalTableParser :=
  mkParser cols ind [].

(** The default of [subcategory_indention]: one tab. *)
Definition default_indention : string := String "009" EmptyString.

(** What [parse_lines] works on: the heap of rows and the parser. *)
Definition state : Type := heap * HirarchicalTableParser.

Definition on_heap {A} (m : M heap A) : M state A :=
  fun s => match m s.1 with (h, out) => ((h, s.2), out) end.

(** The parser after [self.rows.append(r)]. *)
Definition appended (p : HirarchicalTableParser) (r : ref)
    : HirarchicalTableParser :=
  mkParser (data_col_names p) (subcategory_indention p) (rows p ++ [r]).

(** [self.rows.append(row)] *)
Definition rows_append (r : ref) : M state unit :=
  modify (fun s => (s.1, appended s.2 r)).

(** [d[k] = v] on the ordered items of a dictionary. *)
Fixpoint dict_set {V} (k : string) (v : V) (items : list (string * V))
    : list (string * V) :=
  match items with
  | [] => [(k, v)]
  | (k', v') :: rest =>
      if bool_decide (k = k') then (k, v) :: rest
      else (k', v') :: dict_set k v rest
  end.

(** [{n: d for n, d in pairs}] *)
Definition dict_of_pairs {V} (pairs : list (string * V)) : list (string * V) :=
  fold_left (fun d kv => dict_set kv.1 kv.2 d) pairs [].

(** [int((len(name_raw) - len(name_raw.lstrip(ind))) / len(ind))]: the
    quotient of two lengths is not negative, so the truncation of [int]
    is the integer quotient. *)
Definition depth (ind name_raw : string) : result nat :=
  if String.length ind =? 0 then Raise ZeroDivisionError
  else Ok ((String.length name_raw - String.length (PyStr.lstrip ind name_raw))
           / String.length ind).

(** [row_tree[-1]] *)
Definition last_entry (row_tree : list ref) : M state ref :=
  match last row_tree with
  | Some r => ret r
  | None => raise (IndexError "")
  end.

(** The name of a row: the capture stripped, its runs of whitespace
    collapsed. *)
Definition row_name (name_raw : string) : string :=
  PyStr.collapse_ws (PyStr.strip name_raw).

(** The keyword dictionary of a row:
    [{n: d for n, d in zip(self.data_col_names, data)}]. *)
Definition row_items (p : HirarchicalTableParser) (groups : list string)
    : list (string * Q) :=
  dict_of_pairs (zip (data_col_names p)
    ((fun v => PyFloat.of_decimal (PyStr.strip v)) <$> groups)).

(** The [if]/[elif] chain at the end of the loop body: [row] is the new
    row, [d] its depth. *)
Definition attach (row_tree : option (list ref)) (row : ref) (d : nat)
    : M state (option (list ref)) :=
  match row_tree with
  | None => ret (Some [row])
  | Some t =>
      if length t <? d then
        raise (ValueError (LevelSkipped d (Z.of_nat (length t) - 1)))
      else
        let t := take d t in
        except_IndexError_pass
          (parent_row <- last_entry t ;;
           on_heap (Row.set_child_parent_relation row parent_row)) ;;;
        ret (Some (t ++ [row]))
  end.

(** The body of the loop of [parse_lines] for one line; [row_tree] is the
    local variable of that name ([None] until a row has matched) and the
    result its value after the line. *)
Definition parse_line (row_tree : option (list ref)) (line : string)
    : M state (option (list ref)) :=
  if bool_decide (line = "") then ret row_tree
  else
    s <- get ;;
    match PyRe.search (length (data_col_names s.2)) line with
    | None => ret row_tree
    | Some (name_raw, groups) =>
        row <- on_heap (Row.new (row_name name_raw) (row_items s.2 groups)) ;;
        rows_append row ;;;
        d <- (fun st => (st, depth (subcategory_indention s.2) name_raw)) ;;
        attach row_tree row d
    end.

Fixpoint parse_loop (row_tree : option (list ref)) (lines : list string)
    : M state unit :=
  match lines with
  | [] => ret tt
  | line :: rest =>
      t <- parse_line row_tree line ;;
      parse_loop t rest
  end.

(** [self.parse_lines(lines)] *)
Definition parse_lines (lines : list string) : M state unit :=
  parse_loop None lines.

(** The value of the variable [row_tree] once the loop has gone through
    [lines]. *)
Fixpoint run_lines (row_tree : option (list ref)) (lines : list string)
    : M state (option (list ref)) :=
  match lines with
  | [] => ret row_tree
  | line :: rest =>
      t <- parse_line row_tree line ;;
      run_lines t rest
  end.

(** The rows of the parser that have no parent. *)
Definition roots (s : state) : list ref :=
  filter (fun r => Row.parent s.1 r = None) (rows s.2).

Definition row_names (s : state) : list string :=
  (fun r => name (row s.1 r)) <$> roots s.

Definition row_dict (s : state) : gmap string ref :=
  list_to_map (reverse ((fun r => (name (row s.1 r), r)) <$> roots s)).

(** [self.as_dict()]: a NEW dictionary, from the name of each root to the
    result of its [as_dict]. *)
Definition as_dict (limit : nat) : M state (gmap string dval) :=
  s <- get ;;
  e <- Row.mapM (fun nm =>
         s' <- get ;;
         match row_dict s' !! nm with
         | Some r => d <- on_heap (Row.as_dict limit r) ;; ret (nm, DDict d)
         | None => raise (KeyError nm)
         end) (row_names s) ;;
  ret (list_to_map (reverse e)).

(** [self[key]] *)
Definition getitem (s : state) (key : string) : result ref :=
  if bool_decide (key ∈ row_names s) then
    match row_dict s !! key with
    | Some r => Ok r
    | None => Raise (KeyError key)
    end
  else Raise (IndexError key).

End Parser.

(** ** Notions used to state the properties *)

(** The number of leading characters of [s] that satisfy [p]. *)
Definition leading (p : ascii -> bool) (s : string) : nat :=
  String.length (fst (PyStr.span p s)).

(** Every attribute that [__init__] adds has a lower-case name. *)
Definition attrs_lowercase (x : RowData) : Prop :=
  map_Forall (fun k _ => PyStr.lower k = k) (attrs x).

(** [ancestors h r path]: [path] lists the ancestors of [r], the furthest
    first, the parent of [r] last. *)
Inductive ancestors (h : heap) : ref -> list ref -> Prop :=
| ancestors_root r :
    Row.parent h r = None -> ancestors h r []
| ancestors_step r p path :
    Row.parent h r = Some p -> ancestors h p path ->
    ancestors h r (path ++ [p]).

(** [forest_inv n0 h]: among the rows from [n0] on, parents and children
    mirror each other, a parent is older than its child, and no row is
    twice a child of the same row. *)
Record forest_inv (n0 : nat) (h : heap) : Prop := {
  inv_children p c :
    n0 ≤ p -> c ∈ Row.children h p ->
    p < c ∧ c < length h ∧ Row.parent h c = Some p;
  inv_parent r p :
    n0 ≤ r -> Row.parent h r = Some p ->
    n0 ≤ p ∧ p < r ∧ r ∈ Row.children h p;
  inv_nodup p : n0 ≤ p -> NoDup (Row.children h p)
}.

(** [linked h h2 r op]: [h2] is [h] with the new row [r], child of [op]
    when there is one. *)
Definition linked (h h2 : heap) (r : ref) (op : option ref) : Prop :=
  length h2 = S (length h) ∧ r = length h ∧
  (forall y, Row.parent h2 y = if decide (y = r) then op else Row.parent h y) ∧
  (forall y, Row.children h2 y =
     if decide (Some y = op) then Row.children h y ++ [r]
     else Row.children h y).

(** The entries of the stack are rows of the current call. *)
Definition stack_ok (n0 : nat) (h : heap) (t : option (list ref)) : Prop :=
  forall l, t = Some l -> Forall (fun e => n0 ≤ e ∧ e < length h) l.

(** [same_shape h h2]: the rows of [h2] are those of [h] up to their
    [data]. *)
Definition same_shape (h h2 : heap) : Prop :=
  length h2 = length h ∧
  forall y, name (row h2 y) = name (row h y) ∧
            attrs (row h2 y) = attrs (row h y) ∧
            _parent (row h2 y) = _parent (row h y) ∧
            _children (row h2 y) = _children (row h y).

(** *** Concrete heaps and lines *)

(** A row with one child, and that child. *)
Definition heap_one_child : heap :=
  [mkRow "r" ∅ ∅ None [1]; mkRow "c" ∅ ∅ (Some 0) []].

(** Two rows without any relation. *)
Definition heap_two_rows : heap :=
  [mkRow "a" ∅ ∅ None []; mkRow "b" ∅ ∅ None []].

(** The parser that [get_yutiming_body_data] builds. *)
Definition yutiming_parser : HirarchicalTableParser :=
  Parser.new ["min"; "avg"; "max"; "total"] "  ".

Definition two_level_lines : list string :=
  ["Root 1.0 2.0 3.0 4.0"; "  Child 0.1 0.2 0.3 0.4"].

(** The second line is two units deep, under a stack of one row. *)
Definition skipping_lines : list string :=
  ["Root 1.0 2.0 3.0 4.0"; "    Child 0.1 0.2 0.3 0.4"].

(** The state in which [two_level_lines] leave a new parser. *)
Definition two_level : Parser.state :=
  (Parser.parse_lines two_level_lines ([], yutiming_parser)).1.

Definition root_fields : gmap string dval :=
  list_to_map [("min", DFloat (PyFloat.of_decimal "1.0"));
               ("avg", DFloat (PyFloat.of_decimal "2.0"));
               ("max", DFloat (PyFloat.of_decimal "3.0"));
               ("total", DFloat (PyFloat.of_decimal "4.0"))].

Definition child_fields : gmap string dval :=
  list_to_map [("min", DFloat (PyFloat.of_decimal "0.1"));
               ("avg", DFloat (PyFloat.of_decimal "0.2"));
               ("max", DFloat (PyFloat.of_decimal "0.3"));
               ("total", DFloat (PyFloat.of_decimal "0.4"))].

(** The state before the second of the [skipping_lines]. *)
Definition skipping_before : Parser.state :=
  (Parser.run_lines None (take 1 skipping_lines) ([], yutiming_parser)).1.

(** ** The header of a YUTIMING file *)

Module Yutiming.

(** The position that a slice bound [i] denotes in a list of length
    [len]: a negative bound counts from the end, and every bound is
    clipped to the list. *)
Definition slice_bound (len i : Z) : Z :=
  if (i <? 0)%Z then Z.max (len + i) 0 else Z.min i len.

(** [l[start:stop]] *)
Definition slice {A} (l : list A) (start stop : Z) : list A :=
  let len := Z.of_nat (length l) in
  let a := slice_bound len start in
  let b := slice_bound len stop in
  take (Z.to_nat (b - a)) (drop (Z.to_nat a) l).

(** [s.rstrip(chars)]: every trailing character of the set [chars] is
    removed. *)
Fixpoint rstrip (chars : string) (s : string) : string :=
  match s with
  | EmptyString => EmptyString
  | String c r =>
      match rstrip chars r with
      | EmptyString =>
          if PyStr.mem_char c chars then EmptyString else String c EmptyString
      | r' => String c r'
      end
  end.

(** The key under which a header line is stored:
    [str(g[0]).strip().rstrip(':')]. *)
Definition header_key (name_raw : string) : string :=
  rstrip ":" (PyStr.strip name_raw).

(** The body of the loop of [get_yutiming_header_data] on one line; the
    pattern is the row pattern with one data column. *)
Definition header_line (d : gmap string Q) (line : string) : gmap string Q :=
  match PyRe.search 1 line with
  | Some (g0, [g1]) => <[header_key g0 := PyFloat.of_decimal g1]> d
  | _ => d
  end.

(** [get_yutiming_header_data(f, header_start, header_end)], on the lines
    that [readlines] returns for [f]. *)
Definition get_yutiming_header_data (lines : list string)
    (header_start header_end : Z) : gmap string Q :=
  foldl header_line ∅ (slice lines (header_start - 1) header_end).

(** [get_yutiming_body_data(f)], on the lines of [f]: a new parser for the
    four columns and the unit of two blanks parses the lines, and its
    [as_dict] is returned. *)
Definition get_yutiming_body_data (limit : nat) (lines : list string)
    : M heap (gmap string dval) :=
  fun h =>
    match Parser.parse_lines lines
            (h, Parser.new ["min"; "avg"; "max"; "total"] "  ") with
    | (s, Raise e) => (s.1, Raise e)
    | (s, Ok _) =>
        match Parser.as_dict limit s with
        | (s', out) => (s'.1, out)
        end
    end.

End Yutiming.

(** ** The class [COSMO_Run_yu]: the timings of a run *)

Module Run.

(** The attribute [timings]: pairs of a label and seconds, in the order
    they were appended. *)
Definition timings := list (string * Q).

(** What [__getitem__] returns: [None], one value, or the list of the
    values. *)
Inductive item :=
| INone
| IOne (v : Q)
| IMany (vs : list Q).

(** [self[name]]; the tests [len(items) is 0] and [len(items) is 1]
    compare small integers, for which [is] is equality. *)
Definition getitem (t : timings) (name : string) : item :=
  let items := snd <$> filter (fun x => name = x.1) t in
  match items with
  | [] => INone
  | [v] => IOne v
  | _ => IMany items
  end.

(** [self.items()] *)
Definition items (t : timings) : list string := fst <$> t.

(** [name in self] *)
Definition contains (t : timings) (name : string) : bool :=
  bool_decide (name ∈ items t).

(** [u in s] for strings. *)
Fixpoint is_infix (u s : string) : bool :=
  String.prefix u s ||
  match s with
  | EmptyString => false
  | String _ r => is_infix u r
  end.

(** The text that [.] can run over from the start of [s]: up to the first
    newline. *)
Fixpoint until_newline (s : string) : string :=
  match s with
  | EmptyString => EmptyString
  | String c r =>
      if Ascii.eqb c "010" then EmptyString else String c (until_newline r)
  end.

(** The group [value] of the pattern [\s+(?P<value>.+)] when [\s+] takes
    [j] characters of [line], or fewer: [.+] needs one character that is
    not a newline, and [\s+] gives back characters, keeping one, until
    there is one. *)
Fixpoint value_after (line : string) (j : nat) : option string :=
  match j with
  | 0 => None
  | S j' =>
      match until_newline (PyStr.drop j line) with
      | EmptyString => value_after line j'
      | v => Some v
      end
  end.

(** [regex.match(line)] for that pattern, and [match.group('value')]. *)
Definition match_value (line : string) : option string :=
  value_after line (String.length (fst (PyStr.span PyStr.is_space line))).

(** [find_dycore_version_information(file, prefix)] *)
Fixpoint find_dycore_version_information (file : list string)
    (prefix : string) : option string :=
  match file with
  | [] => None
  | line :: rest =>
      if is_infix prefix line then
        match match_value line with
        | Some v => Some v
        | None => find_dycore_version_information rest prefix
        end
      else find_dycore_version_information rest prefix
  end.

(** The default of [prefix]. *)
Definition dycore_prefix : string := "DYCORE C++/CUDA".

End Run.

(** ** More notions used to state properties *)

(** The first and the last character of a text. *)
Definition str_head (s : string) : option ascii :=
  match s with
  | EmptyString => None
  | String c _ => Some c
  end.

Fixpoint str_last (s : string) : option ascii :=
  match s with
  | EmptyString => None
  | String c EmptyString => Some c
  | String _ r => str_last r
  end.

(** The names that a keyword of the constructor must not have, whatever
    the case of its letters. *)
Definition reserved : list string :=
  ["name"; "data"] ++ Row.properties ++ Row.class_attrs.

(** The keywords that the constructor accepts: no two of them equal up to
    case, none reserved, none named [self]. *)
Definition fields_ok (items : list (string * Q)) : Prop :=
  NoDup (PyStr.lower <$> (items.*1)) ∧
  Forall (fun k => (PyStr.lower k ∉ reserved) ∧ k ≠ "self") (items.*1).

(** The attributes that the loop of [__init__] has set after [items],
    starting from [dyn]. *)
Definition set_all (dyn : gmap string Q) (items : list (string * Q))
    : gmap string Q :=
  foldl (fun d kv => <[PyStr.lower kv.1 := kv.2]> d) dyn items.

(** A text made of decimal digits only, and the shape [digits . digits]
    with at least one digit before the point: the texts that [float]
    reads as decimal numbers. *)
Definition all_digits (s : string) : Prop :=
  PyStr.drop_while PyStr.is_digit s = EmptyString.

Definition decimal (c : string) : Prop :=
  exists ip fp, c = String.append ip (String "." fp) ∧
    ip ≠ EmptyString ∧ all_digits ip ∧ all_digits fp.

(** The captures of the lines that [parse_lines] does not skip, for [n]
    data columns, in the order of the lines. *)
Definition matches (n : nat) (lines : list string)
    : list (string * list string) :=
  omap (fun l => if bool_decide (l = "") then None else PyRe.search n l) lines.

(** [same_fields x y]: the rows [x] and [y] have the same name, the same
    [data] and the same attributes set by the constructor. *)
Definition same_fields (x y : RowData) : Prop :=
  name x = name y ∧ data x = data y ∧ attrs x = attrs y.

(** [stack_path h t]: the stack [t] is the ancestor path of the row
    created last, followed by that row. *)
Definition stack_path (h : heap) (t : option (list ref)) : Prop :=
  forall l, t = Some l ->
    exists path r, l = path ++ [r] ∧ ancestors h r path ∧ S r = length h.

(** The outcome [out] with [d] added to its value. *)
Definition offset (d : nat) (out : result nat) : result nat :=
  match out with
  | Ok n => Ok (d + n)
  | Raise e => Raise e
  end.

(** * Properties *)

(** ** Reading the heap after a write *)

Section heap_facts.

Implicit Types (h : heap) (r p c : ref).

Lemma row_alter f h i j :
  row (alter f i h) j =
    if decide (i = j ∧ i < length h) then f (row h i) else row h j.
Proof. unfold row. apply list_lookup_total_alter. Qed.

Lemma row_alter_eq f h i : i < length h -> row (alter f i h) i = f (row h i).
Proof. intros. rewrite row_alter. case_decide; [done | lia]. Qed.

Lemma row_alter_ne f h i j : i ≠ j -> row (alter f i h) j = row h j.
Proof. intros. rewrite row_alter. case_decide; [lia | done]. Qed.

Lemma row_alloc_old h x j : j < length h -> row (h ++ [x]) j = row h j.
Proof. intros. unfold row. by apply lookup_total_app_l. Qed.

Lemma row_alloc_new h x : row (h ++ [x]) (length h) = x.
Proof. unfold row. apply list_lookup_total_middle. done. Qed.

Lemma row_dangling h j : length h ≤ j -> row h j = inhabitant.
Proof.
  intros. unfold row. rewrite (list_lookup_total_alt h j).
  by rewrite lookup_ge_None_2.
Qed.

Lemma with_parent_id (x : RowData) : Row.with_parent (_parent x) x = x.
Proof. by destruct x. Qed.

Lemma with_data_id (x : RowData) : Row.with_data (data x) x = x.
Proof. by destruct x. Qed.

End heap_facts.

(** ** [add_child] *)

(** C5, as the code has it: [add_child] refuses an argument that is not a
    row, and a row that has [self] among ITS children (the guard against a
    direct cycle); every other row is appended to the children of [self],
    whether it is already among them or not. *)
Theorem add_child_guards :
  (forall h self o, (forall c, o ≠ ORow c) ->
     Row.add_child self o h = (h, Raise (ValueError ChildNotRow))) ∧
  (forall h self c, self ∈ Row.children h c ->
     Row.add_child self (ORow c) h = (h, Raise (ValueError Circular))) ∧
  (forall h self c, self ∉ Row.children h c -> self < length h ->
     exists h', Row.add_child self (ORow c) h = (h', Ok tt) ∧
       Row.children h' self = Row.children h self ++ [c] ∧
       (forall r, r ≠ self -> row h' r = row h r)).
Proof.
  split; [|split].
  - intros h self o Ho. destruct o; try done. by destruct (Ho r).
  - intros h self c Hin. unfold Row.add_child.
    by rewrite bool_decide_eq_true_2.
  - intros h self c Hin Hlt. eexists. unfold Row.add_child.
    rewrite bool_decide_eq_false_2 by done.
    split; [reflexivity|]. split.
    + unfold Row.children. by rewrite row_alter_eq.
    + intros r Hr. by rewrite row_alter_ne.
Qed.

Lemma add_child_guards_witness :
  Row.add_child 0 ONone heap_one_child
    = (heap_one_child, Raise (ValueError ChildNotRow)) ∧
  Row.add_child 1 (ORow 0) heap_one_child
    = (heap_one_child, Raise (ValueError Circular)) ∧
  exists h', Row.add_child 0 (ORow 1) heap_one_child = (h', Ok tt) ∧
    Row.children h' 0 = Row.children heap_one_child 0 ++ [1] ∧
    (forall r, r ≠ 0 -> row h' r = row heap_one_child r).
Proof.
  split; [|split].
  - apply (proj1 add_child_guards). done.
  - apply (proj1 (proj2 add_child_guards)). vm_compute. left.
  - apply (proj2 (proj2 add_child_guards)).
    + vm_compute. inversion 1.
    + vm_compute. lia.
Defined.

(** C5 as stated fails: a row that is already a child is added a second
    time without any error. *)
Lemma add_child_again_succeeds :
  1 ∈ Row.children heap_one_child 0 ∧
  (Row.add_child 0 (ORow 1) heap_one_child).2 = Ok tt ∧
  Row.children (Row.add_child 0 (ORow 1) heap_one_child).1 0 = [1; 1].
Proof. split; [vm_compute; left | split; reflexivity]. Qed.

(** ** The setter of [parent] *)

(** C6: a parent that is set cannot be set again; on a row without parent
    the setter accepts a row [p] unless [self] is the parent of [p], and
    the getter then returns [p]; it refuses everything that is not a row,
    and it refuses [p] when [self == p.parent]. *)
Theorem set_parent_once :
  (forall h self o, Row.parent h self ≠ None ->
     Row.set_parent self o h = (h, Raise (ValueError ParentSetTwice))) ∧
  (forall h self p,
     Row.parent h self = None -> Row.parent h p ≠ Some self ->
     self < length h ->
     exists h', Row.set_parent self (ORow p) h = (h', Ok tt) ∧
       Row.parent h' self = Some p ∧
       (forall r, r ≠ self -> row h' r = row h r)) ∧
  (forall h self o, (forall p, o ≠ ORow p) ->
     exists e, Row.set_parent self o h = (h, Raise (ValueError e))) ∧
  (forall h self p, Row.parent h p = Some self ->
     exists e, Row.set_parent self (ORow p) h = (h, Raise (ValueError e))).
Proof.
  repeat split.
  - intros h self o Hset. unfold Row.set_parent.
    by rewrite bool_decide_eq_true_2.
  - intros h self p Hnone Hcyc Hlt. eexists. unfold Row.set_parent.
    rewrite bool_decide_eq_false_2 by (unfold Row.parent in Hnone; naive_solver).
    rewrite bool_decide_eq_false_2 by done.
    split; [reflexivity|]. split.
    + unfold Row.parent. by rewrite row_alter_eq.
    + intros r Hr. by rewrite row_alter_ne.
  - intros h self o Ho. unfold Row.set_parent.
    case_bool_decide; [by eexists|].
    destruct o; try by eexists. by destruct (Ho r).
  - intros h self p Hp. unfold Row.set_parent.
    case_bool_decide; [by eexists|].
    rewrite bool_decide_eq_true_2 by done. by eexists.
Qed.

Lemma set_parent_once_witness :
  Row.set_parent 1 (ORow 0) heap_one_child
    = (heap_one_child, Raise (ValueError ParentSetTwice)) ∧
  (exists h', Row.set_parent 1 (ORow 0) heap_two_rows = (h', Ok tt) ∧
     Row.parent h' 1 = Some 0 ∧
     (forall r, r ≠ 1 -> row h' r = row heap_two_rows r)) ∧
  (exists e, Row.set_parent 0 (OStr "a") heap_two_rows
     = (heap_two_rows, Raise (ValueError e))) ∧
  (exists e, Row.set_parent 0 (ORow 1) heap_one_child
     = (heap_one_child, Raise (ValueError e))).
Proof.
  destruct set_parent_once as (H1 & H2 & H3 & H4).
  split; [|split; [|split]].
  - apply H1. vm_compute. discriminate.
  - apply H2; [reflexivity | vm_compute; discriminate | vm_compute; lia].
  - apply H3. discriminate.
  - apply H4. reflexivity.
Defined.

(** ** The depth of a row *)

Section depth_facts.

Import PyStr.

Lemma leading_cons p c s :
  leading p (String c s) = if p c then S (leading p s) else 0.
Proof.
  unfold leading. simpl. destruct (p c); [|done].
  by destruct (span p s).
Qed.

Lemma length_drop_while p s :
  String.length (drop_while p s) + leading p s = String.length s.
Proof.
  induction s as [|c s IH]; [done|].
  rewrite leading_cons. simpl. destruct (p c); simpl; lia.
Qed.

Lemma leading_le p s : leading p s ≤ String.length s.
Proof. pose proof (length_drop_while p s). lia. Qed.

Lemma leading_ext p q s : (forall c, p c = q c) -> leading p s = leading q s.
Proof.
  intros E. induction s as [|c s IH]; [done|].
  rewrite !leading_cons, E, IH. done.
Qed.

Lemma length_replicate n c : String.length (replicate n c) = n.
Proof. induction n; simpl; congruence. Qed.

Lemma replicate_nonempty n c : 0 < n -> replicate n c ≠ EmptyString.
Proof. destruct n; [lia | done]. Qed.

Lemma mem_char_replicate n c x :
  0 < n -> mem_char x (replicate n c) = Ascii.eqb x c.
Proof.
  induction n as [|n IH]; [lia|]. intros _. simpl.
  destruct (Ascii.eqb x c) eqn:E; [done|].
  destruct n; [done|]. apply IH. lia.
Qed.

Lemma prefix_replicate n c s :
  String.prefix (replicate n c) s = bool_decide (n ≤ leading (fun x => Ascii.eqb x c) s).
Proof.
  revert s. induction n as [|n IH]; intros s.
  - rewrite bool_decide_eq_true_2 by lia. by destruct s.
  - destruct s as [|x s].
    + rewrite bool_decide_eq_false_2; [done | unfold leading; simpl; lia].
    + rewrite leading_cons. cbn [replicate String.prefix].
      destruct (ascii_dec c x) as [->|Hne].
      * rewrite Ascii.eqb_refl, IH.
        destruct (ascii_dec x x); [|done].
        apply bool_decide_ext. lia.
      * assert (Ascii.eqb x c = false) as ->
          by (apply Ascii.eqb_neq; congruence).
        rewrite bool_decide_eq_false_2 by lia.
        by destruct (ascii_dec c x).
Qed.

Lemma leading_drop n c s :
  n ≤ leading (fun x => Ascii.eqb x c) s ->
  leading (fun x => Ascii.eqb x c) (drop n s)
    = leading (fun x => Ascii.eqb x c) s - n.
Proof.
  revert s. induction n as [|n IH]; intros s Hn.
  - simpl. destruct s; lia.
  - destruct s as [|x s]; [unfold leading in *; simpl in *; lia|].
    rewrite leading_cons in *. simpl.
    destruct (Ascii.eqb x c); [|lia]. rewrite IH; lia.
Qed.

Lemma count_prefix_replicate n c fuel s :
  0 < n ->
  leading (fun x => Ascii.eqb x c) s / n ≤ fuel ->
  count_prefix fuel (replicate n c) s
    = leading (fun x => Ascii.eqb x c) s / n.
Proof.
  intros Hn. revert s. induction fuel as [|fuel IH]; intros s Hf.
  - simpl. lia.
  - simpl. rewrite prefix_replicate, length_replicate.
    set (k := leading (fun x => Ascii.eqb x c) s) in *.
    case_bool_decide as Hk.
    + assert (k / n = S ((k - n) / n)) as E.
      { replace k with ((k - n) + 1 * n) at 1 by lia.
        rewrite Nat.div_add by lia. lia. }
      rewrite IH; rewrite leading_drop by done; fold k; lia.
    + symmetry. apply Nat.div_small. lia.
Qed.

End depth_facts.

(** C7, as the code has it: for a unit that is not empty, the depth is the
    number of leading characters of the capture that occur in the unit,
    divided by the length of the unit (the integer quotient); when the
    unit is made of copies of one character, as the tab and the two blanks
    that the parsers of the source use, this is the number of times the
    unit prefixes the capture. *)
Theorem depth_counts_units :
  (forall ind name_raw, ind ≠ "" ->
     Parser.depth ind name_raw
       = Ok (leading (fun c => PyStr.mem_char c ind) name_raw
             / String.length ind)) ∧
  (forall n c name_raw, 0 < n ->
     Parser.depth (PyStr.replicate n c) name_raw
       = Ok (PyStr.count_prefix (String.length name_raw)
               (PyStr.replicate n c) name_raw)).
Proof.
  assert (forall ind name_raw, ind ≠ "" ->
     Parser.depth ind name_raw
       = Ok (leading (fun c => PyStr.mem_char c ind) name_raw
             / String.length ind)) as Hgen.
  { intros ind s Hind. unfold Parser.depth, PyStr.lstrip.
    destruct ind as [|a ind]; [done|]. simpl Nat.eqb. cbv iota.
    pose proof (length_drop_while (fun c => PyStr.mem_char c (String a ind)) s).
    do 2 f_equal. lia. }
  split; [exact Hgen|].
  intros n c s Hn.
  rewrite Hgen by (by apply replicate_nonempty).
  rewrite length_replicate. f_equal.
  rewrite (leading_ext _ (fun x => Ascii.eqb x c))
    by (intros; by apply mem_char_replicate).
  symmetry. apply count_prefix_replicate; [done|].
  transitivity (leading (fun x => Ascii.eqb x c) s); [|apply leading_le].
  apply Nat.Div0.div_le_upper_bound. nia.
Qed.

Lemma depth_counts_units_witness :
  Parser.depth "  " "    Child "
    = Ok (leading (fun c => PyStr.mem_char c "  ") "    Child " / 2) ∧
  Parser.depth (PyStr.replicate 2 " ") "    Child "
    = Ok (PyStr.count_prefix 10 (PyStr.replicate 2 " ") "    Child ").
Proof.
  split.
  - apply (proj1 depth_counts_units "  " "    Child "). discriminate.
  - apply (proj2 depth_counts_units 2 " "%char "    Child "). lia.
Defined.

(** C7 as stated fails for a unit of two different characters: the
    capture ["-- x "] (of a line such as ["-- x 1.0 2.0 3.0 4.0"]) starts
    with three characters of the unit ["- "], so its depth is 1, while the
    unit does not prefix it; and for the empty unit no depth is computed
    at all. *)
Lemma depth_is_not_prefix_count :
  PyRe.search 4 "-- x 1.0 2.0 3.0 4.0"
    = Some ("-- x ", ["1.0"; "2.0"; "3.0"; "4.0"]) ∧
  Parser.depth "- " "-- x " = Ok 1 ∧
  PyStr.count_prefix (String.length "-- x ") "- " "-- x " = 0 ∧
  Parser.depth "- " "-- x "
    ≠ Ok (PyStr.count_prefix (String.length "-- x ") "- " "-- x ") ∧
  Parser.depth "" "  x " = Raise ZeroDivisionError.
Proof. repeat split. discriminate. Qed.

(** ** Item lookup on a row *)

Section getitem_facts.

Import PyStr.

Lemma lower_char_idemp c : lower_char (lower_char c) = lower_char c.
Proof. by destruct c as [[] [] [] [] [] [] [] []]. Qed.

Lemma lower_idemp s : lower (lower s) = lower s.
Proof.
  induction s as [|c s IH]; [done|].
  simpl. by rewrite lower_char_idemp, IH.
Qed.

Lemma class_names_lowercase :
  Forall (fun a => lower a = a)
    (Row.class_attrs ++ Row.properties ++ ["name"; "data"; "_parent"; "_children"]).
Proof. repeat constructor. Qed.

Lemma init_loop_lowercase items :
  forall dyn dyn',
    (forall k, is_Some (dyn !! k) -> lower k = k) ->
    Row.init_loop dyn items = Ok dyn' ->
    forall k, is_Some (dyn' !! k) -> lower k = k.
Proof.
  induction items as [|[key value] items IH]; intros dyn dyn' Hdyn Hrun.
  - simpl in Hrun. by inversion Hrun; subst.
  - simpl in Hrun.
    destruct (Row.init_hasattr dyn (lower key)) as [[]|]; try done.
    destruct (Row.init_setattr dyn (lower key) value) as [dyn1|] eqn:Hset;
      [|done].
    apply (IH dyn1 dyn'); [|done].
    unfold Row.init_setattr in Hset.
    repeat case_bool_decide; try done.
    inversion Hset; subst. intros k.
    destruct (decide (lower key = k)) as [<-|Hne].
    + intros _. apply lower_idemp.
    + rewrite lookup_insert_ne by done. apply Hdyn.
Qed.

(** The rows that the constructor builds satisfy [attrs_lowercase]. *)
Lemma new_attrs_lowercase nm items h h' r :
  Row.new nm items h = (h', Ok r) -> attrs_lowercase (row h' r).
Proof.
  unfold Row.new. case_bool_decide; [done|].
  destruct (Row.init_loop ∅ items) as [dyn|] eqn:Hloop; [|done].
  intros [= <- <-]. rewrite row_alloc_new. unfold attrs_lowercase. simpl.
  intros k x Hk.
  apply lookup_delete_Some in Hk as [_ Hk].
  apply lookup_delete_Some in Hk as [_ Hk].
  eapply init_loop_lowercase; [|exact Hloop|by eexists].
  intros k' [? Hk']. by rewrite lookup_empty in Hk'.
Qed.

Lemma getattr_lowercase h self a :
  attrs_lowercase (row h self) ->
  is_Some (Row.getattr h self a) -> lower a = a.
Proof.
  intros Hrow. unfold Row.getattr.
  repeat (case_bool_decide; [by subst|]).
  destruct (attrs (row h self) !! a) eqn:Ha.
  - intros _. by eapply Hrow.
  - case_bool_decide as Hin; [|by intros [? ?]]. intros _.
    pose proof class_names_lowercase as Hall.
    rewrite Forall_forall in Hall. apply Hall.
    apply elem_of_app. by left.
Qed.

Lemma child_dict_lookup h self key :
  key ∈ Row.child_names h self ->
  exists c, Row.child_dict h self !! key = Some c ∧
    c ∈ Row.children h self ∧ name (row h c) = key.
Proof.
  unfold Row.child_names, Row.child_dict. intros Hin.
  destruct (list_to_map (M := gmap string ref)
    (reverse ((fun c => (name (row h c), c)) <$> Row.children h self)) !! key)
    as [c|] eqn:Hl.
  - exists c. split; [done|].
    apply elem_of_list_to_map_2, elem_of_reverse, list_elem_of_fmap in Hl.
    destruct Hl as (c' & [= -> ->] & Hc'). done.
  - apply not_elem_of_list_to_map in Hl. exfalso. apply Hl.
    rewrite <- fmap_reverse, <- list_fmap_compose.
    apply list_elem_of_fmap in Hin as (c & -> & Hc).
    apply list_elem_of_fmap. exists c. split; [done|].
    by apply elem_of_reverse.
Qed.

End getitem_facts.

(** C8: [self[key]] returns the attribute of the row whose name equals
    [key] up to the case of the letters, when there is one; otherwise the
    child named [key], when there is one; otherwise it raises [IndexError],
    and in no case a [ValueError], the exception of the relationship and
    construction errors. *)
Theorem getitem_attrs_then_children h self key :
  attrs_lowercase (row h self) ->
  (forall a v, Row.getattr h self a = Some v ->
     PyStr.lower a = PyStr.lower key ->
     Row.getitem h self key = Ok v) ∧
  ((forall a, Row.hasattr h self a = true ->
      PyStr.lower a ≠ PyStr.lower key) ->
   (key ∈ Row.child_names h self ->
      exists c, Row.getitem h self key = Ok (Row.VRow c) ∧
        c ∈ Row.children h self ∧ name (row h c) = key) ∧
   (key ∉ Row.child_names h self ->
      Row.getitem h self key = Raise (IndexError key))) ∧
  (forall e, Row.getitem h self key ≠ Raise (ValueError e)).
Proof.
  intros Hrow. split; [|split].
  - intros a v Ha Heq.
    assert (PyStr.lower a = a) as Hla
      by (eapply getattr_lowercase; [done | by eexists]).
    unfold Row.getitem.
    destruct (Row.getattr h self key) as [w|] eqn:Hk.
    + assert (PyStr.lower key = key) as Hlk
        by (eapply getattr_lowercase; [done | by eexists]).
      congruence.
    + rewrite <- Heq, Hla, Ha. done.
  - intros Hnone.
    assert (forall a, Row.getattr h self a = None ∨ PyStr.lower a ≠ PyStr.lower key)
      as Hno.
    { intros a. destruct (Row.getattr h self a) eqn:Ha; [right|by left].
      apply Hnone. unfold Row.hasattr. rewrite Ha.
      apply bool_decide_eq_true_2. by eexists. }
    assert (Row.getattr h self key = None) as Hk
      by (by destruct (Hno key)).
    assert (Row.getattr h self (PyStr.lower key) = None) as Hlk.
    { destruct (Hno (PyStr.lower key)) as [|Hne]; [done|].
      by rewrite lower_idemp in Hne. }
    unfold Row.getitem. rewrite Hk, Hlk. split.
    + intros Hin. rewrite bool_decide_eq_true_2 by done.
      destruct (child_dict_lookup h self key Hin) as (c & -> & ? & ?).
      by exists c.
    + intros Hin. by rewrite bool_decide_eq_false_2.
  - intros e. unfold Row.getitem.
    destruct (Row.getattr h self key); [done|].
    destruct (Row.getattr h self (PyStr.lower key)); [done|].
    case_bool_decide; [|done].
    by destruct (Row.child_dict h self !! key).
Qed.

(** ** [get_parents] *)

Section get_parents_facts.

Import Row.

Lemma content_old (s news : lists) l :
  l < length s -> content (s ++ news) l = content s l.
Proof. intros. unfold content. by apply lookup_total_app_l. Qed.

Lemma content_new (s : lists) x : content (s ++ [x]) (length s) = x.
Proof. unfold content. by apply list_lookup_total_middle. Qed.

(** A call with the accumulator [acc] returns, in front of the content
    of [acc], the ancestors of [self]; it allocates lists and changes
    none. *)
Lemma get_parents_acc h self path :
  ancestors h self path ->
  forall limit s acc, length path < limit ->
  exists news l,
    get_parents limit h self acc s = (s ++ news, Ok l) ∧
    content (s ++ news) l = path ++ content s acc ∧
    (l = acc ∨ l < length (s ++ news)).
Proof.
  induction 1 as [r Hroot | r p path Hp Hanc IH]; intros limit s acc Hlim.
  - destruct limit as [|limit]; [simpl in Hlim; lia|].
    exists [], acc. simpl. rewrite Hroot, app_nil_r. auto.
  - destruct limit as [|limit]; [simpl in Hlim; lia|].
    rewrite length_app in Hlim. simpl in Hlim.
    destruct (IH limit (s ++ [p :: content s acc]) (length s))
      as (news & l & Hrun & Hcont & Hl); [lia|].
    exists ([p :: content s acc] ++ news), l.
    rewrite (assoc app).
    cbn [get_parents]. rewrite Hp. unfold bind, cons_new.
    rewrite Hrun. split; [done|].
    split.
    + rewrite Hcont, content_new. by rewrite <- (assoc app).
    + right. destruct Hl as [->|Hl]; [|done].
      rewrite !length_app. simpl. lia.
Qed.

(** For a row without parent the result is the accumulator itself: no
    copy is made. *)
Lemma get_parents_root_alias h self limit s acc :
  parent h self = None ->
  get_parents (S limit) h self acc s = (s, Ok acc).
Proof. intros Hroot. simpl. by rewrite Hroot. Qed.

End get_parents_facts.

(** C9: in a forest, [get_parents()] returns the ancestors of the row, the
    furthest first, as long as the recursion limit exceeds their number;
    the call changes no list that existed before it, so the default
    accumulator is still empty afterwards, and a later call, on any row,
    again returns the ancestors of its row and leaves the earlier result
    as it was. *)
Theorem get_parents_is_ancestor_path h limit s self path :
  ancestors h self path ->
  Row.content s Row.default_parents = [] ->
  Row.default_parents < length s ->
  length path < limit ->
  exists s1 l,
    Row.get_parents_default limit h self s = (s1, Ok l) ∧
    Row.content s1 l = path ∧
    (forall l0, l0 < length s -> Row.content s1 l0 = Row.content s l0) ∧
    Row.content s1 Row.default_parents = [] ∧
    forall self' path',
      ancestors h self' path' -> length path' < limit ->
      exists s2 l',
        Row.get_parents_default limit h self' s1 = (s2, Ok l') ∧
        Row.content s2 l' = path' ∧
        Row.content s2 l = path ∧
        Row.content s2 Row.default_parents = [].
Proof.
  intros Hanc Hdef Hlen Hlim.
  destruct (get_parents_acc h self path Hanc limit s Row.default_parents Hlim)
    as (news & l & Hrun & Hcont & Hl).
  rewrite Hdef, app_nil_r in Hcont.
  assert (l < length (s ++ news)) as Hl'.
  { destruct Hl as [->|]; [|done]. rewrite length_app. lia. }
  assert (Row.content (s ++ news) Row.default_parents = []) as Hdef1
    by (by rewrite content_old).
  exists (s ++ news), l. repeat split; try done.
  - intros l0 Hl0. by apply content_old.
  - intros self' path' Hanc' Hlim'.
    destruct (get_parents_acc h self' path' Hanc' limit (s ++ news)
                Row.default_parents Hlim')
      as (news' & l' & Hrun' & Hcont' & _).
    rewrite Hdef1, app_nil_r in Hcont'.
    exists ((s ++ news) ++ news'), l'. repeat split; try done.
    + by rewrite content_old.
    + rewrite content_old; [by rewrite content_old|].
      rewrite length_app. lia.
Qed.

(** ** One line of [parse_lines] *)

Section parse_facts.

Import Parser.

Implicit Types (s : state) (t : option (list ref)).

Lemma new_inv nm items h h' r :
  Row.new nm items h = (h', Ok r) ->
  r = length h ∧
  exists x, h' = h ++ [x] ∧ _parent x = None ∧ _children x = [] ∧ name x = nm.
Proof.
  unfold Row.new. case_bool_decide; [done|].
  destruct (Row.init_loop ∅ items); [|done].
  intros [= <- <-]. split; [done|]. by eexists.
Qed.

(** An empty line and a line that the pattern does not match leave the
    state and the stack as they are. *)
Lemma parse_line_skip t line s :
  line = "" ∨ PyRe.search (length (data_col_names s.2)) line = None ->
  parse_line t line s = (s, Ok t).
Proof.
  intros [->|Hno]; [done|]. unfold parse_line.
  case_bool_decide; [done|]. unfold bind, get. by rewrite Hno.
Qed.

(** What [parse_line] does once the row of a matched line is built and
    its depth computed. *)
Lemma parse_line_matched t line s name_raw groups h' r d :
  line ≠ "" ->
  PyRe.search (length (data_col_names s.2)) line = Some (name_raw, groups) ->
  Row.new (row_name name_raw) (row_items s.2 groups) s.1 = (h', Ok r) ->
  depth (subcategory_indention s.2) name_raw = Ok d ->
  parse_line t line s = attach t r d (h', appended s.2 r).
Proof.
  intros Hline Hm Hnew Hd. unfold parse_line.
  rewrite bool_decide_eq_false_2 by done.
  unfold bind at 1. unfold get. rewrite Hm.
  unfold bind at 1. unfold on_heap at 1.
  rewrite Hnew. simpl.
  unfold bind at 1. unfold rows_append, modify. simpl.
  unfold bind at 1. rewrite Hd. done.
Qed.

(** A line on which [parse_line] does not raise was skipped, or went
    through all of the above. *)
Lemma parse_line_ok t line s s' t' :
  parse_line t line s = (s', Ok t') ->
  (s' = s ∧ t' = t) ∨
  exists name_raw groups h' r d,
    line ≠ "" ∧
    PyRe.search (length (data_col_names s.2)) line = Some (name_raw, groups) ∧
    Row.new (row_name name_raw) (row_items s.2 groups) s.1 = (h', Ok r) ∧
    depth (subcategory_indention s.2) name_raw = Ok d ∧
    attach t r d (h', appended s.2 r) = (s', Ok t').
Proof.
  intros Hrun.
  destruct (decide (line = "")) as [Hl|Hl].
  { rewrite parse_line_skip in Hrun by auto. left. by inversion Hrun. }
  destruct (PyRe.search (length (data_col_names s.2)) line)
    as [[name_raw groups]|] eqn:Hm.
  2:{ rewrite parse_line_skip in Hrun by auto. left. by inversion Hrun. }
  right. exists name_raw, groups.
  destruct (Row.new (row_name name_raw) (row_items s.2 groups) s.1)
    as [h' [r|e]] eqn:Hnew.
  2:{ exfalso. revert Hrun. unfold parse_line.
      rewrite bool_decide_eq_false_2 by done.
      unfold bind at 1. unfold get. rewrite Hm.
      unfold bind at 1. unfold on_heap at 1.
      by rewrite Hnew. }
  destruct (depth (subcategory_indention s.2) name_raw) as [d|e] eqn:Hd.
  2:{ exfalso. revert Hrun. unfold parse_line.
      rewrite bool_decide_eq_false_2 by done.
      unfold bind at 1. unfold get. rewrite Hm.
      unfold bind at 1. unfold on_heap at 1.
      rewrite Hnew. simpl.
      unfold bind at 1. unfold rows_append, modify. simpl.
      unfold bind at 1. by rewrite Hd. }
  exists h', r, d. repeat split; try done.
  by rewrite <- (parse_line_matched t line s name_raw groups h' r d).
Qed.

End parse_facts.

(** ** The forest that [parse_lines] builds *)

Section forest_facts.

Import Parser.

Lemma row_alloc_ne h x y : y ≠ length h -> row (h ++ [x]) y = row h y.
Proof.
  intros Hy. destruct (decide (y < length h)).
  - by apply row_alloc_old.
  - rewrite !row_dangling; [done | lia | rewrite length_app; simpl; lia].
Qed.

Lemma forest_inv_init h : forest_inv (length h) h.
Proof.
  split.
  - intros p c Hp. unfold Row.children. rewrite row_dangling by done.
    simpl. by intros ?%elem_of_nil.
  - intros r p Hr. unfold Row.parent. by rewrite row_dangling.
  - intros p Hp. unfold Row.children. rewrite row_dangling by done.
    constructor.
Qed.

Lemma forest_inv_linked n0 h h2 r op :
  forest_inv n0 h -> n0 ≤ length h -> linked h h2 r op ->
  (forall p, op = Some p -> n0 ≤ p ∧ p < length h) ->
  forest_inv n0 h2.
Proof.
  intros [Hc Hp Hn] Hn0 (Hlen & -> & Hpar & Hch) Hop.
  assert (forall p c, n0 ≤ p -> c ∈ Row.children h p -> c ≠ length h) as Hold.
  { intros p c Hp0 Hin. destruct (Hc p c Hp0 Hin). lia. }
  split.
  - intros p c Hp0. rewrite Hch, Hpar. case_decide as Hsome.
    + rewrite elem_of_app, list_elem_of_singleton. intros [Hin | ->].
      * destruct (Hc p c Hp0 Hin) as (? & ? & ?).
        rewrite decide_False by lia. split; [done|]. split; [lia | done].
      * rewrite decide_True by done.
        destruct (Hop p) as [? ?]; [done|]. split; [done|].
        split; [lia | done].
    + intros Hin. destruct (Hc p c Hp0 Hin) as (? & ? & ?).
      rewrite decide_False by lia. split; [done|]. split; [lia | done].
  - intros r p Hr. rewrite Hpar, Hch. case_decide as Hr'.
    + intros ->. destruct (Hop p) as [? ?]; [done|]. subst r.
      split; [done|]. split; [done|].
      rewrite decide_True by done. apply elem_of_app. right. left.
    + intros Hpr. destruct (Hp r p Hr Hpr) as (? & ? & ?).
      split; [done|]. split; [done|].
      case_decide; [apply elem_of_app; by left | done].
  - intros p Hp0. rewrite Hch. case_decide; [|by apply Hn].
    apply NoDup_app. split; [by apply Hn|]. split; [|apply NoDup_singleton].
    intros c Hin Hc2. apply list_elem_of_singleton in Hc2. subst c.
    by apply (Hold p (length h)).
Qed.

(** Attaching the new row to a row of the stack never raises. *)
Lemma relation_new n0 h x p :
  forest_inv n0 h -> _parent x = None -> _children x = [] ->
  n0 ≤ p -> p < length h ->
  exists h2,
    Row.set_child_parent_relation (length h) p (h ++ [x]) = (h2, Ok tt) ∧
    linked h h2 (length h) (Some p).
Proof.
  intros Hinv Hpx Hcx Hp0 Hp.
  set (r := length h).
  set (h1 := alter (Row.with_parent (Some p)) r (h ++ [x])).
  set (h2 := alter (fun y => Row.with_children (_children y ++ [r]) y) p h1).
  assert (r < length (h ++ [x])) as Hr
    by (rewrite length_app; simpl; unfold r; lia).
  assert (forall y, row h1 y =
    if decide (y = r) then Row.with_parent (Some p) x else row h y) as Hh1.
  { intros y. unfold h1. rewrite row_alter.
    destruct (decide (y = r)) as [->|Hy].
    - rewrite decide_True by done. unfold r. by rewrite row_alloc_new.
    - rewrite decide_False by (intros [? ?]; congruence).
      by apply row_alloc_ne. }
  exists h2. split.
  - unfold Row.set_child_parent_relation, bind, Row.set_parent.
    unfold r in *. rewrite row_alloc_new, Hpx.
    rewrite bool_decide_eq_false_2 by naive_solver.
    rewrite bool_decide_eq_false_2.
    2:{ unfold Row.parent. rewrite row_alloc_old by done. intros Hcyc.
        destruct (inv_parent _ _ Hinv p (length h) Hp0 Hcyc). lia. }
    unfold Row.add_child. fold r. fold h1.
    rewrite bool_decide_eq_false_2; [done|].
    unfold Row.children. rewrite Hh1, decide_True by done.
    simpl. rewrite Hcx. by intros ?%elem_of_nil.
  - assert (length h1 = S (length h)) as Hl1.
    { unfold h1. rewrite length_alter, length_app. simpl. lia. }
    split; [unfold h2; by rewrite length_alter, Hl1|]. split; [done|].
    split; intros y; unfold Row.parent, Row.children, h2;
      rewrite row_alter, Hl1, !Hh1.
    + destruct (decide (y = r)) as [->|Hy].
      * by rewrite decide_False by lia.
      * case_decide as Hd; [destruct Hd as [-> _]|done].
        simpl. by rewrite decide_False by lia.
    + destruct (decide (Some y = Some p)) as [[= ->]|Hy].
      * rewrite decide_True by lia. simpl. by rewrite decide_False by lia.
      * case_decide as Hd; [destruct Hd as [-> _]; by destruct Hy|].
        destruct (decide (y = r)) as [->|Hyr]; [|done].
        simpl. rewrite Hcx. unfold r. by rewrite row_dangling.
Qed.

End forest_facts.

Section parse_inv.

Import Parser.

Lemma linked_alloc h x :
  _parent x = None -> _children x = [] ->
  linked h (h ++ [x]) (length h) None.
Proof.
  intros Hpx Hcx. split; [rewrite length_app; simpl; lia|]. split; [done|].
  split; intros y; unfold Row.parent, Row.children.
  - case_decide as Hy; [subst; by rewrite row_alloc_new|].
    by rewrite row_alloc_ne.
  - rewrite decide_False by done.
    destruct (decide (y = length h)) as [->|Hy]; [|by rewrite row_alloc_ne].
    by rewrite row_alloc_new, Hcx, row_dangling.
Qed.

Lemma stack_ok_push n0 h h2 l d :
  n0 ≤ length h -> length h2 = S (length h) ->
  stack_ok n0 h (Some l) ->
  stack_ok n0 h2 (Some (take d l ++ [length h])).
Proof.
  intros Hn0 Hlen Hst k [= <-]. specialize (Hst l eq_refl).
  apply Forall_app. split.
  - apply Forall_take. eapply Forall_impl; [exact Hst|].
    intros e [? ?]. simpl. lia.
  - apply Forall_singleton. lia.
Qed.

Lemma attach_inv n0 h x t d p' s' t' :
  forest_inv n0 h -> n0 ≤ length h -> stack_ok n0 h t ->
  _parent x = None -> _children x = [] ->
  attach t (length h) d (h ++ [x], p') = (s', Ok t') ->
  forest_inv n0 s'.1 ∧ stack_ok n0 s'.1 t' ∧
  length s'.1 = S (length h) ∧ s'.2 = p'.
Proof.
  intros Hinv Hn0 Hst Hpx Hcx Hrun.
  pose proof (linked_alloc h x Hpx Hcx) as Hlk0.
  assert (forest_inv n0 (h ++ [x])) as Hinv0
    by (apply (forest_inv_linked n0 h _ (length h) None); [done..|by intros]).
  assert (length (h ++ [x]) = S (length h)) as Hlen0
    by (rewrite length_app; simpl; lia).
  destruct t as [l|]; simpl in Hrun.
  2:{ inversion Hrun; subst. simpl. split; [done|]. split; [|by split].
      intros k [= <-]. apply Forall_singleton. lia. }
  destruct (length l <? d); [done|].
  unfold bind, except_IndexError_pass, last_entry in Hrun.
  destruct (last (take d l)) as [p|] eqn:Hlast.
  2:{ inversion Hrun; subst. simpl. split; [done|]. split; [|by split].
      by eapply stack_ok_push. }
  assert (n0 ≤ p ∧ p < length h) as [Hp0 Hp].
  { specialize (Hst l eq_refl). rewrite Forall_forall in Hst.
    apply Hst. apply last_Some_elem_of in Hlast.
    by apply (subseteq_take d l). }
  destruct (relation_new n0 h x p Hinv Hpx Hcx Hp0 Hp) as (h2 & Hrel & Hlk).
  unfold ret, on_heap in Hrun. simpl in Hrun. rewrite Hrel in Hrun.
  inversion Hrun; subst. simpl.
  pose proof Hlk as (Hlen2 & _). split; [|split; [|by split]].
  - apply (forest_inv_linked n0 h h2 (length h) (Some p)); [done..|].
    by intros ? [= <-].
  - by eapply stack_ok_push.
Qed.

Lemma parse_line_inv n0 t line s s' t' :
  forest_inv n0 s.1 -> n0 ≤ length s.1 -> stack_ok n0 s.1 t ->
  parse_line t line s = (s', Ok t') ->
  forest_inv n0 s'.1 ∧ n0 ≤ length s'.1 ∧ stack_ok n0 s'.1 t'.
Proof.
  intros Hinv Hn0 Hst Hrun.
  destruct (parse_line_ok _ _ _ _ _ Hrun)
    as [[-> ->] | (name_raw & groups & h' & r & d & _ & _ & Hnew & _ & Hat)];
    [done|].
  destruct (new_inv _ _ _ _ _ Hnew) as (-> & x & -> & Hpx & Hcx & _).
  destruct (attach_inv n0 s.1 x t d _ s' t' Hinv Hn0 Hst Hpx Hcx Hat)
    as (? & ? & ? & ?).
  split; [done|]. split; [lia | done].
Qed.

Lemma parse_loop_inv n0 lines :
  forall t s s',
    forest_inv n0 s.1 -> n0 ≤ length s.1 -> stack_ok n0 s.1 t ->
    parse_loop t lines s = (s', Ok tt) ->
    forest_inv n0 s'.1 ∧ n0 ≤ length s'.1.
Proof.
  induction lines as [|line lines IH]; intros t s s' Hinv Hn0 Hst Hrun.
  - inversion Hrun; by subst.
  - simpl in Hrun. unfold bind in Hrun.
    destruct (parse_line t line s) as [s1 [t1|e]] eqn:Hline; [|done].
    destruct (parse_line_inv n0 t line s s1 t1 Hinv Hn0 Hst Hline)
      as (? & ? & ?).
    by eapply IH.
Qed.

End parse_inv.

(** C10: after a successful [parse_lines], for rows [r] and [p] created
    by the call, [r.parent is p] exactly when [r] is among [p.children],
    and then [r] occurs once in [p.children]. *)
Theorem parent_child_consistent lines h0 p0 s1 r p :
  Parser.parse_lines lines (h0, p0) = (s1, Ok tt) ->
  length h0 ≤ r -> r < length s1.1 ->
  length h0 ≤ p -> p < length s1.1 ->
  (Row.parent s1.1 r = Some p <-> r ∈ Row.children s1.1 p) ∧
  (Row.parent s1.1 r = Some p ->
     length (filter (fun c => c = r) (Row.children s1.1 p)) = 1).
Proof.
  intros Hrun Hr _ Hp _.
  destruct (parse_loop_inv (length h0) lines None (h0, p0) s1) as [Hinv _];
    [apply forest_inv_init | done | by intros ? | done |].
  assert (Row.parent s1.1 r = Some p <-> r ∈ Row.children s1.1 p) as Hiff.
  { split.
    - intros Hpar. by destruct (inv_parent _ _ Hinv r p Hr Hpar) as (_ & _ & ?).
    - intros Hin. by destruct (inv_children _ _ Hinv p r Hp Hin) as (_ & _ & ?). }
  split; [done|]. intros Hpar. apply Hiff in Hpar.
  pose proof (inv_nodup _ _ Hinv p Hp) as Hnd.
  revert Hpar Hnd. generalize (Row.children s1.1 p). intros l.
  induction l as [|c l IH]; [by intros ?%elem_of_nil|].
  intros Hin Hnd. apply NoDup_cons in Hnd as [Hc Hnd].
  destruct (decide (c = r)) as [->|Hne].
  - rewrite filter_cons_True by done. simpl. f_equal.
    clear IH Hin. induction l as [|c' l IH]; [done|].
    apply not_elem_of_cons in Hc as [? ?]. apply NoDup_cons in Hnd as [_ ?].
    rewrite filter_cons_False by done. by apply IH.
  - rewrite filter_cons_False by done. apply IH; [|done].
    apply elem_of_cons in Hin as [->|]; done.
Qed.

(** ** The depth policy of [parse_lines] *)

Section policy_facts.

Import Parser.

Lemma parse_loop_app pre post :
  forall t s,
    parse_loop t (pre ++ post) s =
      match run_lines t pre s with
      | (s', Ok t') => parse_loop t' post s'
      | (s', Raise e) => (s', Raise e)
      end.
Proof.
  induction pre as [|line pre IH]; intros t s; [done|].
  simpl. unfold bind.
  destruct (parse_line t line s) as [s1 [t1|e]]; [apply IH | done].
Qed.

Lemma run_lines_app pre post :
  forall t s,
    run_lines t (pre ++ post) s =
      match run_lines t pre s with
      | (s', Ok t') => run_lines t' post s'
      | (s', Raise e) => (s', Raise e)
      end.
Proof.
  induction pre as [|line pre IH]; intros t s; [done|].
  simpl. unfold bind.
  destruct (parse_line t line s) as [s1 [t1|e]]; [apply IH | done].
Qed.

(** Lines that are skipped change nothing. *)
Lemma run_lines_skip pre t s :
  Forall (fun l => l = "" ∨
            PyRe.search (length (data_col_names s.2)) l = None) pre ->
  run_lines t pre s = (s, Ok t).
Proof.
  induction 1 as [|line pre Hline _ IH]; [done|].
  simpl. unfold bind. by rewrite parse_line_skip.
Qed.

End policy_facts.

(** C3: the first row that matches in a call of [parse_lines] becomes the
    only entry of the stack, whatever its depth [d], and has no parent. *)
Theorem first_row_is_root s pre line post name_raw groups h' r d :
  Forall (fun l => l = "" ∨
            PyRe.search (length (data_col_names s.2)) l = None) pre ->
  line ≠ "" ->
  PyRe.search (length (data_col_names s.2)) line = Some (name_raw, groups) ->
  Row.new (Parser.row_name name_raw) (Parser.row_items s.2 groups) s.1
    = (h', Ok r) ->
  Parser.depth (subcategory_indention s.2) name_raw = Ok d ->
  Parser.run_lines None (pre ++ [line]) s
    = ((h', Parser.appended s.2 r), Ok (Some [r])) ∧
  Row.parent h' r = None ∧
  Parser.parse_lines (pre ++ line :: post) s
    = Parser.parse_loop (Some [r]) post (h', Parser.appended s.2 r).
Proof.
  intros Hpre Hline Hm Hnew Hd.
  pose proof (parse_line_matched None line s name_raw groups h' r d
                Hline Hm Hnew Hd) as Hstep.
  simpl in Hstep. split; [|split].
  - rewrite run_lines_app, run_lines_skip by done.
    simpl. unfold bind. by rewrite Hstep.
  - destruct (new_inv _ _ _ _ _ Hnew) as (-> & x & -> & Hpx & _).
    unfold Row.parent. by rewrite row_alloc_new.
  - unfold Parser.parse_lines.
    rewrite parse_loop_app, run_lines_skip by done.
    simpl. unfold bind. by rewrite Hstep.
Qed.

(** C2, as the code has it: when a row that is not the first has a depth
    [d] greater than the length of the stack [t], [parse_lines] raises the
    error of the skipped level, whose message gives [d] and the length of
    [t] minus one (the depth of the last entry of the stack); the row is
    in the heap and at the end of [rows] when the error is raised. *)
Theorem skipped_level_raises s0 pre s t line post name_raw groups h' r d :
  Parser.run_lines None pre s0 = (s, Ok (Some t)) ->
  line ≠ "" ->
  PyRe.search (length (data_col_names s.2)) line = Some (name_raw, groups) ->
  Row.new (Parser.row_name name_raw) (Parser.row_items s.2 groups) s.1
    = (h', Ok r) ->
  Parser.depth (subcategory_indention s.2) name_raw = Ok d ->
  length t < d ->
  exists s',
    Parser.parse_lines (pre ++ line :: post) s0
      = (s', Raise (ValueError (LevelSkipped d (Z.of_nat (length t) - 1)))) ∧
    rows s'.2 = rows s.2 ++ [r] ∧
    r = length s.1 ∧ length s'.1 = S (length s.1).
Proof.
  intros Hpre Hline Hm Hnew Hd Hlt.
  pose proof (parse_line_matched (Some t) line s name_raw groups h' r d
                Hline Hm Hnew Hd) as Hstep.
  simpl in Hstep. rewrite (proj2 (Nat.ltb_lt _ _) Hlt) in Hstep.
  exists (h', Parser.appended s.2 r). split.
  - unfold Parser.parse_lines. rewrite parse_loop_app.
    rewrite Hpre. simpl. unfold bind. by rewrite Hstep.
  - destruct (new_inv _ _ _ _ _ Hnew) as (-> & x & -> & _).
    simpl. rewrite length_app. simpl. split; [done|]. split; lia.
Qed.

(** ** The parser of the YUTIMING body on concrete lines *)

(** C1: the two lines give one root, [Root], with one child, [Child];
    [Root.as_dict()] is the mapping of the fields of [Root] with the entry
    ["Child"], whose value is the mapping of [Child], where ["max"] is 0.3;
    and on every row without children [as_dict()] returns the [data] of the
    row and changes nothing. *)
Theorem two_level_as_dict :
  (exists s h2,
     Parser.parse_lines two_level_lines ([], yutiming_parser) = (s, Ok tt) ∧
     Parser.roots s = [0] ∧ Parser.row_names s = ["Root"] ∧
     Row.children s.1 0 = [1] ∧ Row.child_names s.1 0 = ["Child"] ∧
     Row.children s.1 1 = [] ∧
     data (row s.1 0) = root_fields ∧ data (row s.1 1) = child_fields ∧
     Row.as_dict 2 0 s.1 = (h2, Ok 0) ∧
     data (row h2 0) = <["Child" := DDict 1]> root_fields ∧
     data (row h2 1) = child_fields ∧
     data (row h2 0) !! "Child" = Some (DDict 1) ∧
     data (row h2 1) !! "max" = Some (DFloat (PyFloat.of_decimal "0.3")) ∧
     PyFloat.of_decimal "0.3" = 3 # 10) ∧
  (forall limit h r,
     Row.children h r = [] -> Row.as_dict (S limit) r h = (h, Ok r)).
Proof.
  split.
  - eexists _, _.
    split; [vm_compute; reflexivity|].
    repeat (split; [vm_compute; reflexivity|]).
    vm_compute; reflexivity.
  - intros limit h r Hleaf. simpl. unfold bind, get, modify, ret.
    rewrite Hleaf. simpl. f_equal.
    apply list_alter_id. intros x. unfold Row.dict_update. simpl.
    rewrite (left_id_L ∅ (∪)). apply with_data_id.
Qed.

Lemma two_level_as_dict_witness :
  Row.children two_level.1 1 = [] ∧
  Row.as_dict 1 1 two_level.1 = (two_level.1, Ok 1).
Proof.
  split; [reflexivity|].
  apply (proj2 two_level_as_dict 0 two_level.1 1). reflexivity.
Defined.

(** C4 fails on a row with children: [as_dict] stores the entries of the
    children in the [data] of the row itself.  Before the call the [data]
    of [Root] has no key ["Child"], after the call it has. *)
Theorem as_dict_changes_data :
  data (row two_level.1 0) !! "Child" = None ∧
  (Row.as_dict 2 0 two_level.1).2 = Ok 0 ∧
  data (row (Row.as_dict 2 0 two_level.1).1 0) !! "Child" = Some (DDict 1) ∧
  data (row (Row.as_dict 2 0 two_level.1).1 0) ≠ data (row two_level.1 0).
Proof.
  split; [reflexivity|]. split; [reflexivity|].
  assert (data (row (Row.as_dict 2 0 two_level.1).1 0) !! "Child"
          = Some (DDict 1)) as Hafter by (vm_compute; reflexivity).
  split; [exact Hafter|].
  intros Heq. rewrite Heq in Hafter. vm_compute in Hafter. discriminate.
Qed.

(** C2 as stated fails on the number cited: under a stack of length 1 the
    message gives the depth 0 of the last entry, not the length 1. *)
Lemma skipped_level_cites_parent_depth :
  Parser.run_lines None (take 1 skipping_lines) ([], yutiming_parser)
    = (skipping_before, Ok (Some [0])) ∧
  (Parser.parse_lines skipping_lines ([], yutiming_parser)).2
    = Raise (ValueError (LevelSkipped 2 0)) ∧
  (Parser.parse_lines skipping_lines ([], yutiming_parser)).2
    ≠ Raise (ValueError (LevelSkipped 2 (Z.of_nat (length [0])))).
Proof.
  split; [vm_compute; reflexivity|].
  assert ((Parser.parse_lines skipping_lines ([], yutiming_parser)).2
    = Raise (ValueError (LevelSkipped 2 0))) as -> by (vm_compute; reflexivity).
  split; [reflexivity | discriminate].
Qed.

Lemma skipped_level_raises_witness :
  exists s',
    Parser.parse_lines
      (take 1 skipping_lines ++ "    Child 0.1 0.2 0.3 0.4" :: [])
      ([], yutiming_parser)
      = (s', Raise (ValueError (LevelSkipped 2 (Z.of_nat (length [0]) - 1)))) ∧
    rows s'.2 = rows skipping_before.2 ++ [1] ∧
    1 = length skipping_before.1 ∧
    length s'.1 = S (length skipping_before.1).
Proof.
  apply (skipped_level_raises ([], yutiming_parser) (take 1 skipping_lines)
           skipping_before [0] "    Child 0.1 0.2 0.3 0.4" []
           "    Child " ["0.1"; "0.2"; "0.3"; "0.4"]
           (Row.new (Parser.row_name "    Child ")
              (Parser.row_items yutiming_parser ["0.1"; "0.2"; "0.3"; "0.4"])
              skipping_before.1).1 1 2).
  - vm_compute. reflexivity.
  - discriminate.
  - vm_compute. reflexivity.
  - vm_compute. reflexivity.
  - reflexivity.
  - simpl. lia.
Defined.

Lemma first_row_is_root_witness :
  let h' := (Row.new (Parser.row_name "      Root ")
               (Parser.row_items yutiming_parser ["1.0"; "2.0"; "3.0"; "4.0"])
               []).1 in
  Parser.run_lines None ([] ++ ["      Root 1.0 2.0 3.0 4.0"])
      ([], yutiming_parser)
    = ((h', Parser.appended yutiming_parser 0), Ok (Some [0])) ∧
  Row.parent h' 0 = None ∧
  Parser.parse_lines
      ([] ++ "      Root 1.0 2.0 3.0 4.0" :: ["  Child 0.1 0.2 0.3 0.4"])
      ([], yutiming_parser)
    = Parser.parse_loop (Some [0]) ["  Child 0.1 0.2 0.3 0.4"]
        (h', Parser.appended yutiming_parser 0).
Proof.
  apply (first_row_is_root ([], yutiming_parser) []
           "      Root 1.0 2.0 3.0 4.0" ["  Child 0.1 0.2 0.3 0.4"]
           "      Root " ["1.0"; "2.0"; "3.0"; "4.0"] _ 0 3).
  - constructor.
  - discriminate.
  - vm_compute. reflexivity.
  - vm_compute. reflexivity.
  - reflexivity.
Defined.

Lemma getitem_attrs_then_children_witness :
  Row.getitem two_level.1 0 "MAX" = Ok (Row.VFloat (PyFloat.of_decimal "3.0")) ∧
  (exists c, Row.getitem two_level.1 0 "Child" = Ok (Row.VRow c) ∧
     c ∈ Row.children two_level.1 0 ∧ name (row two_level.1 c) = "Child") ∧
  Row.getitem two_level.1 0 "child" = Raise (IndexError "child").
Proof.
  assert (attrs_lowercase (row two_level.1 0)) as Hlow
    by (apply (bool_decide_unpack _); vm_compute; exact I).
  assert (forall key, Row.hasattr two_level.1 0 (PyStr.lower key) = false ->
            forall a, Row.hasattr two_level.1 0 a = true ->
                      PyStr.lower a ≠ PyStr.lower key) as Hnone.
  { intros key Hkey a Ha Heq.
    rewrite (getattr_lowercase two_level.1 0 a Hlow) in Heq
      by (by apply bool_decide_eq_true_1 in Ha).
    subst a. congruence. }
  split; [|split].
  - apply (proj1 (getitem_attrs_then_children two_level.1 0 "MAX" Hlow) "max");
      vm_compute; reflexivity.
  - apply (proj1 (proj1 (proj2
      (getitem_attrs_then_children two_level.1 0 "Child" Hlow))
      (Hnone "Child" eq_refl))).
    vm_compute. left.
  - apply (proj2 (proj1 (proj2
      (getitem_attrs_then_children two_level.1 0 "child" Hlow))
      (Hnone "child" eq_refl))).
    vm_compute. intros Hin. inversion Hin; subst.
    match goal with H : _ ∈ [] |- _ => inversion H end.
Defined.

Lemma get_parents_is_ancestor_path_witness :
  exists s1 l,
    Row.get_parents_default 2 two_level.1 1 Row.lists_init = (s1, Ok l) ∧
    Row.content s1 l = [0] ∧
    (forall l0, l0 < length Row.lists_init ->
       Row.content s1 l0 = Row.content Row.lists_init l0) ∧
    Row.content s1 Row.default_parents = [] ∧
    forall self' path',
      ancestors two_level.1 self' path' -> length path' < 2 ->
      exists s2 l',
        Row.get_parents_default 2 two_level.1 self' s1 = (s2, Ok l') ∧
        Row.content s2 l' = path' ∧
        Row.content s2 l = [0] ∧
        Row.content s2 Row.default_parents = [].
Proof.
  apply (get_parents_is_ancestor_path two_level.1 2 Row.lists_init 1 ([] ++ [0])).
  - apply (ancestors_step _ 1 0 []); [reflexivity|].
    apply ancestors_root. reflexivity.
  - reflexivity.
  - vm_compute. lia.
  - simpl. lia.
Defined.

Lemma parent_child_consistent_witness :
  (Row.parent two_level.1 1 = Some 0 <-> 1 ∈ Row.children two_level.1 0) ∧
  (Row.parent two_level.1 1 = Some 0 ->
     length (filter (fun c => c = 1) (Row.children two_level.1 0)) = 1).
Proof.
  apply (parent_child_consistent two_level_lines [] yutiming_parser two_level 1 0).
  - vm_compute. reflexivity.
  - simpl. lia.
  - vm_compute. lia.
  - simpl. lia.
  - vm_compute. lia.
Defined.

(** ** The rows of a parse are a forest *)

Section forest_paths.

(** Under [forest_inv] every row from [n0] on has an ancestor path, no
    longer than the number of rows older than it. *)
Lemma forest_inv_ancestors n0 h :
  forest_inv n0 h ->
  forall r, n0 ≤ r -> exists path, ancestors h r path ∧ length path ≤ r - n0.
Proof.
  intros Hinv r. induction r as [r IH] using lt_wf_ind. intros Hr.
  destruct (Row.parent h r) as [p|] eqn:Hp.
  - destruct (inv_parent _ _ Hinv r p Hr Hp) as (Hp0 & Hlt & _).
    destruct (IH p Hlt Hp0) as (path & Hpath & Hlen).
    exists (path ++ [p]). split; [by apply ancestors_step|].
    rewrite length_app. simpl. lia.
  - exists []. split; [by apply ancestors_root | simpl; lia].
Qed.

(** So [get_parents] applies to every row that [parse_lines] creates. *)
Lemma parsed_rows_have_ancestors lines h0 p0 s1 r :
  Parser.parse_lines lines (h0, p0) = (s1, Ok tt) ->
  length h0 ≤ r ->
  exists path, ancestors s1.1 r path ∧ length path ≤ r - length h0.
Proof.
  intros Hrun Hr.
  destruct (parse_loop_inv (length h0) lines None (h0, p0) s1) as [Hinv _];
    [apply forest_inv_init | done | by intros ? | done |].
  by apply forest_inv_ancestors.
Qed.

End forest_paths.

(** ** What [as_dict] leaves alone *)

Section as_dict_frame.

Import Row.

Lemma same_shape_refl h : same_shape h h.
Proof. unfold same_shape. by split. Qed.

Lemma same_shape_trans h1 h2 h3 :
  same_shape h1 h2 -> same_shape h2 h3 -> same_shape h1 h3.
Proof.
  intros [Hl1 H1] [Hl2 H2]. unfold same_shape. split; [congruence|].
  intros y. destruct (H1 y) as (? & ? & ? & ?), (H2 y) as (? & ? & ? & ?).
  repeat split; congruence.
Qed.

Lemma same_shape_with_data f self h :
  same_shape h (alter (fun r => with_data (f r) r) self h).
Proof.
  unfold same_shape. split; [apply length_alter|].
  intros y. rewrite row_alter. by case_decide as Hy; [destruct Hy as [-> _]|].
Qed.

Lemma mapM_shape {A B} (f : A -> M heap B) l :
  (forall x h h' out, f x h = (h', out) -> same_shape h h') ->
  forall h h' out, mapM f l h = (h', out) -> same_shape h h'.
Proof.
  intros Hf. induction l as [|x l IH]; intros h h' out Hrun.
  - inversion Hrun. apply same_shape_refl.
  - simpl in Hrun. unfold bind in Hrun.
    destruct (f x h) as [h1 [y|e]] eqn:Hx.
    2:{ inversion Hrun; subst. by eapply Hf. }
    destruct (mapM f l h1) as [h2 [ys|e]] eqn:Hl;
      inversion Hrun; subst;
      (eapply same_shape_trans; [by eapply Hf | by eapply IH]).
Qed.

(** [as_dict] changes no [name], no parent, no list of children and no
    attribute set by the constructor, whatever its outcome: the only
    attribute it writes is [data]. *)
Lemma as_dict_shape limit :
  forall self h h' out, as_dict limit self h = (h', out) -> same_shape h h'.
Proof.
  induction limit as [|limit IH]; intros self h h' out Hrun.
  - inversion Hrun. apply same_shape_refl.
  - simpl in Hrun. unfold bind at 1 in Hrun. unfold get at 1 in Hrun.
    unfold bind at 1 in Hrun.
    match type of Hrun with
    | context [mapM ?f ?l h] =>
        destruct (mapM f l h) as [h1 [e|err]] eqn:Hmap;
        assert (same_shape h h1) as Hs1
    end.
    1,3: (eapply mapM_shape; [|exact Hmap]; intros c k k' o Hc;
          unfold bind, get, ret in Hc;
          destruct (as_dict limit c k) as [k1 [d|err']] eqn:Hd;
          inversion Hc; subst; by eapply IH).
    + unfold bind, modify, ret in Hrun. inversion Hrun; subst.
      eapply same_shape_trans; [exact Hs1|]. apply same_shape_with_data.
    + by inversion Hrun; subst.
Qed.

End as_dict_frame.

(** * Further properties of the code *)

(** ** The timings of a run *)

Section run_facts.

Import Run.

Lemma filter_values_app (t : timings) k v name :
  snd <$> filter (fun x => name = x.1) (t ++ [(k, v)])
    = (snd <$> filter (fun x => name = x.1) t)
      ++ (if decide (name = k) then [v] else []).
Proof.
  rewrite filter_app, fmap_app. f_equal.
  destruct (decide (name = k)) as [->|Hne].
  - by rewrite filter_cons_True.
  - by rewrite filter_cons_False.
Qed.

Lemma elem_of_items_filter (t : timings) name :
  name ∈ items t <-> filter (fun x => name = x.1) t ≠ [].
Proof.
  unfold items. rewrite list_elem_of_fmap. split.
  - intros ([k v] & Hname & Hin) Hnil. simpl in Hname. subst name.
    assert ((k, v) ∈ filter (fun x : string * Q => k = x.1) t) as Hf
      by (by apply list_elem_of_filter).
    rewrite Hnil in Hf. by apply elem_of_nil in Hf.
  - intros Hne. destruct (filter (fun x => name = x.1) t) as [|x l] eqn:Hf;
      [done|].
    assert (x ∈ filter (fun x => name = x.1) t) as Hx by (rewrite Hf; left).
    apply list_elem_of_filter in Hx as [Hx1 Hx2]. by exists x.
Qed.

End run_facts.

(** [name in run] holds exactly when [run[name]] is not [None]; a single
    value is returned when exactly one entry carries the label, and it is
    the value of an entry with that label; a list is returned only when
    it has two values or more. *)
Theorem run_getitem_contains (t : Run.timings) (name : string) :
  (Run.contains t name = true <-> Run.getitem t name ≠ Run.INone) ∧
  (forall v, Run.getitem t name = Run.IOne v ->
     (name, v) ∈ t ∧ length (filter (fun x => name = x.1) t) = 1) ∧
  (forall vs, Run.getitem t name = Run.IMany vs ->
     2 ≤ length vs ∧ vs = snd <$> filter (fun x => name = x.1) t).
Proof.
  unfold Run.contains, Run.getitem.
  rewrite bool_decide_eq_true, elem_of_items_filter.
  destruct (filter (fun x => name = x.1) t) as [|[k v] l] eqn:Hf.
  - split; [|by split]. simpl. split; [by intros [] | by intros []].
  - assert ((k, v) ∈ filter (fun x => name = x.1) t) as Hx
      by (rewrite Hf; left).
    apply list_elem_of_filter in Hx as [Hx1 Hx2]. simpl in Hx1. subst k.
    destruct l as [|y l]; simpl.
    + split; [by split|]. split; [|done]. by intros ? [= <-].
    + split; [by split|]. split; [done|].
      intros ? [= <-]. split; [simpl; lia | done].
Qed.

(** What [timings.append((k, v))] does to the lookups: the first entry of
    a label is returned as a value, the second turns the result into the
    list of both, later ones extend the list; other labels are not
    affected. *)
Theorem run_getitem_append (t : Run.timings) (k : string) (v : Q) :
  Run.getitem (t ++ [(k, v)]) k
    = match Run.getitem t k with
      | Run.INone => Run.IOne v
      | Run.IOne v0 => Run.IMany [v0; v]
      | Run.IMany vs => Run.IMany (vs ++ [v])
      end ∧
  (forall name, name ≠ k ->
     Run.getitem (t ++ [(k, v)]) name = Run.getitem t name) ∧
  Run.contains (t ++ [(k, v)]) k = true.
Proof.
  split; [|split].
  - unfold Run.getitem. rewrite filter_values_app, decide_True by done.
    destruct (snd <$> filter (fun x => k = x.1) t) as [|v0 [|v1 l]]; done.
  - intros name Hne. unfold Run.getitem.
    by rewrite filter_values_app, decide_False, app_nil_r.
  - unfold Run.contains, Run.items. apply bool_decide_eq_true.
    rewrite fmap_app. apply elem_of_app. right. simpl. left.
Qed.

(** ** Lookup of a root in the parser *)

Section parser_getitem_facts.

(** In a dictionary comprehension the last item of a key is the one that
    stays. *)
Lemma list_to_map_reverse_lookup {V} (l : list (string * V)) k v :
  list_to_map (M := gmap string V) (reverse l) !! k = Some v <->
  exists l1 l2, l = l1 ++ (k, v) :: l2 ∧ k ∉ l2.*1.
Proof.
  induction l as [|[k' v'] l IH] using rev_ind.
  - simpl. rewrite lookup_empty. split; [done|].
    intros (l1 & l2 & Hl & _). by destruct l1.
  - rewrite reverse_snoc. simpl. destruct (decide (k' = k)) as [->|Hne].
    + rewrite lookup_insert_eq. split.
      * intros [= ->]. exists l, []. split; [done|]. simpl. apply not_elem_of_nil.
      * intros (l1 & l2 & Hl & Hk).
        destruct l2 as [|x l2 _] using rev_ind.
        -- apply app_inj_tail in Hl as [_ [= ->]]. done.
        -- rewrite app_comm_cons, (assoc app) in Hl.
           apply app_inj_tail in Hl as [_ <-].
           exfalso. apply Hk. rewrite fmap_app. apply elem_of_app. right.
           simpl. left.
    + rewrite lookup_insert_ne by done. rewrite IH. split.
      * intros (l1 & l2 & -> & Hk). exists l1, (l2 ++ [(k', v')]).
        split; [by rewrite <- (assoc app)|].
        rewrite fmap_app. intros [?|Hin]%elem_of_app; [done|].
        simpl in Hin. apply list_elem_of_singleton in Hin. done.
      * intros (l1 & l2 & Hl & Hk).
        destruct l2 as [|x l2 _] using rev_ind.
        -- apply app_inj_tail in Hl as [_ [= -> _]]. done.
        -- rewrite app_comm_cons, (assoc app) in Hl.
           apply app_inj_tail in Hl as [-> <-].
           exists l1, l2. split; [done|]. intros Hin. apply Hk.
           rewrite fmap_app. apply elem_of_app. by left.
Qed.

End parser_getitem_facts.

(** [parser[key]] is the LAST of the roots named [key], in the order of
    the lines; it raises [IndexError] exactly when no root has that name,
    and never the [KeyError] of the dictionary. *)
Theorem parser_getitem_last_root (s : Parser.state) (key : string) :
  (forall r, Parser.getitem s key = Ok r <->
     exists l1 l2, Parser.roots s = l1 ++ r :: l2 ∧
       name (row s.1 r) = key ∧
       key ∉ (fun r' => name (row s.1 r')) <$> l2) ∧
  (Parser.getitem s key = Raise (IndexError key) <->
     key ∉ Parser.row_names s) ∧
  (forall k, Parser.getitem s key ≠ Raise (KeyError k)).
Proof.
  assert (forall r, Parser.row_dict s !! key = Some r <->
     exists l1 l2, Parser.roots s = l1 ++ r :: l2 ∧
       name (row s.1 r) = key ∧
       key ∉ (fun r' => name (row s.1 r')) <$> l2) as Hdict.
  { intros r. unfold Parser.row_dict. rewrite list_to_map_reverse_lookup.
    split.
    - intros (m1 & m2 & Hm & Hk).
      apply fmap_app_inv in Hm as (l1 & l2' & -> & Hm2 & Hroots).
      destruct l2' as [|r' l2]; [done|]. simpl in Hm2.
      injection Hm2 as Hname -> ->. exists l1, l2.
      split; [done|]. split; [done|].
      by rewrite <- list_fmap_compose in Hk.
    - intros (l1 & l2 & Hroots & Hname & Hk).
      exists ((fun r => (name (row s.1 r), r)) <$> l1),
             ((fun r => (name (row s.1 r), r)) <$> l2).
      split; [by rewrite Hroots, fmap_app, <- Hname|].
      by rewrite <- list_fmap_compose. }
  assert (key ∈ Parser.row_names s <-> is_Some (Parser.row_dict s !! key))
    as Hnames.
  { assert (key ∈ Parser.row_names s <->
      key ∈ (reverse ((fun r => (name (row s.1 r), r)) <$> Parser.roots s)).*1)
      as ->.
    { rewrite <- fmap_reverse, <- list_fmap_compose. unfold Parser.row_names.
      rewrite !list_elem_of_fmap. by setoid_rewrite elem_of_reverse. }
    rewrite <- not_eq_None_Some. unfold Parser.row_dict.
    rewrite <- not_elem_of_list_to_map.
    split; [by intros ? Hn | apply dec_stable]. }
  unfold Parser.getitem. split; [|split].
  - intros r. rewrite <- Hdict. case_bool_decide as Hin.
    + destruct (Parser.row_dict s !! key) as [r'|] eqn:Hl.
      * split; congruence.
      * apply Hnames in Hin. by destruct Hin.
    + split; [done|]. intros Hl. exfalso. apply Hin, Hnames. by eexists.
  - case_bool_decide as Hin; [|done].
    split; [|done]. by destruct (Parser.row_dict s !! key).
  - intros k. case_bool_decide as Hin; [|done].
    destruct (Parser.row_dict s !! key) as [r'|] eqn:Hl; [done|].
    apply Hnames in Hin. by destruct Hin.
Qed.

(** ** The version line of the dycore *)

Section dycore_facts.

Import PyStr Run.

Lemma drop_leading p s : drop (leading p s) s = drop_while p s.
Proof.
  induction s as [|c s IH]; [done|].
  rewrite leading_cons. simpl. by destruct (p c).
Qed.

Lemma drop_while_head p s c r : drop_while p s = String c r -> p c = false.
Proof.
  induction s as [|c' s IH]; [done|]. simpl.
  destruct (p c') eqn:Hc; [done|]. by intros [= <- _].
Qed.

(** A line that does not start with whitespace does not match. *)
Lemma match_value_unindented line :
  leading is_space line = 0 -> match_value line = None.
Proof. unfold match_value. fold (leading is_space line). by intros ->. Qed.

(** On a line that starts with whitespace and has other characters, the
    value is the line without that whitespace, up to the end of the
    line. *)
Lemma match_value_indented line :
  0 < leading is_space line -> lstrip_ws line ≠ EmptyString ->
  match_value line = Some (until_newline (lstrip_ws line)).
Proof.
  intros Hk Hrest. unfold match_value. fold (leading is_space line).
  pose proof (drop_leading is_space line) as Hdrop.
  destruct (leading is_space line) as [|j]; [lia|].
  cbn [value_after]. rewrite Hdrop. fold (lstrip_ws line).
  destruct (lstrip_ws line) as [|c r] eqn:Hs; [done|].
  apply drop_while_head in Hs. cbn [until_newline].
  destruct (Ascii.eqb c "010") eqn:Hc; [|done].
  apply Ascii.eqb_eq in Hc. by subst c.
Qed.

End dycore_facts.

(** [find_dycore_version_information] returns [None] when no line
    contains the marker; otherwise the first line that contains the marker
    AND starts with whitespace decides: the result is that line without
    its leading whitespace, up to its end of line (marker lines that are
    not indented are passed over). *)
Theorem dycore_version_first_indented
    (pre post : list string) (line prefix : string) :
  ((forall file, Forall (fun l => Run.is_infix prefix l = false) file ->
      Run.find_dycore_version_information file prefix = None)) ∧
  (Forall (fun l => Run.is_infix prefix l = false ∨
                    leading PyStr.is_space l = 0) pre ->
   Run.is_infix prefix line = true ->
   0 < leading PyStr.is_space line ->
   PyStr.lstrip_ws line ≠ EmptyString ->
   Run.find_dycore_version_information (pre ++ line :: post) prefix
     = Some (Run.until_newline (PyStr.lstrip_ws line))).
Proof.
  split.
  - induction 1 as [|l file Hl _ IH]; [done|]. simpl. by rewrite Hl.
  - intros Hpre Hin Hk Hrest.
    induction Hpre as [|l pre Hl _ IH]; simpl.
    + by rewrite Hin, match_value_indented.
    + destruct Hl as [Hl|Hl]; [by rewrite Hl|].
      rewrite match_value_unindented by done.
      by destruct (Run.is_infix prefix l).
Qed.

Lemma dycore_version_first_indented_witness :
  Run.find_dycore_version_information
    (["DYCORE C++/CUDA (not indented)"; "other"]
     ++ String "009" (String.append "DYCORE C++/CUDA 1.2" (String "010" ""))
        :: ["  DYCORE C++/CUDA later"])
    Run.dycore_prefix
  = Some (Run.until_newline (PyStr.lstrip_ws
      (String "009" (String.append "DYCORE C++/CUDA 1.2" (String "010" ""))))).
Proof.
  apply (proj2 (dycore_version_first_indented _ _ _ _)).
  - constructor; [right; reflexivity|].
    constructor; [left; reflexivity|]. constructor.
  - reflexivity.
  - vm_compute. lia.
  - discriminate.
Defined.

(** ** The header of a YUTIMING file *)

Section slice_facts.

Import Yutiming.

Lemma slice_nat {A} (l : list A) (a b : nat) :
  slice l (Z.of_nat a) (Z.of_nat b) = take (b - a) (drop a l).
Proof.
  unfold slice, slice_bound.
  destruct (Z.ltb_spec (Z.of_nat a) 0); [lia|].
  destruct (Z.ltb_spec (Z.of_nat b) 0); [lia|].
  destruct (decide (a < length l)) as [Ha|Ha].
  - rewrite (Z.min_l (Z.of_nat a)) by lia. rewrite Nat2Z.id.
    destruct (decide (b ≤ length l)) as [Hb|Hb].
    + rewrite Z.min_l by lia. f_equal. lia.
    + rewrite Z.min_r by lia.
      rewrite !take_ge; [done | rewrite length_drop; lia | rewrite length_drop; lia].
  - rewrite (Z.min_r (Z.of_nat a)) by lia. rewrite Nat2Z.id.
    by rewrite !drop_ge, !take_nil by lia.
Qed.

End slice_facts.

Section header_facts.

Import PyStr Yutiming.

Lemma str_last_rstrip chars s c :
  str_last (rstrip chars s) = Some c -> mem_char c chars = false.
Proof.
  induction s as [|a s IH]; [done|]. simpl.
  destruct (rstrip chars s) as [|b r] eqn:Hr.
  - destruct (mem_char a chars) eqn:Ha; [done|]. by intros [= <-].
  - intros Hl. by apply IH.
Qed.

Lemma str_head_rstrip chars s c :
  str_head (rstrip chars s) = Some c -> str_head s = Some c.
Proof.
  destruct s as [|a s]; [done|]. simpl.
  destruct (rstrip chars s); [|done].
  by destruct (mem_char a chars).
Qed.

Lemma str_head_rstrip_ws s c :
  str_head (rstrip_ws s) = Some c -> str_head s = Some c.
Proof.
  destruct s as [|a s]; [done|]. simpl.
  destruct (rstrip_ws s); [|done].
  by destruct (is_space a).
Qed.

Lemma str_head_strip s c : str_head (strip s) = Some c -> is_space c = false.
Proof.
  unfold strip, lstrip_ws. intros Hh%str_head_rstrip_ws.
  destruct (drop_while is_space s) as [|a r] eqn:Hs; [done|].
  injection Hh as <-. by eapply drop_while_head.
Qed.

Lemma digits_val_nonneg s : forall acc, (0 <= acc)%Z -> (0 <= PyFloat.digits_val acc s)%Z.
Proof.
  induction s as [|c s IH]; intros acc Hacc; [done|].
  simpl. apply IH. unfold PyFloat.digit_val. lia.
Qed.

(** A float read by the parser is never negative. *)
Lemma of_decimal_nonneg v : (0 <= PyFloat.of_decimal v)%Q.
Proof.
  unfold PyFloat.of_decimal. destruct (span is_digit v) as [ip r].
  rewrite Qred_correct. unfold Qle. simpl.
  rewrite Z.mul_1_r. by apply digits_val_nonneg.
Qed.

Lemma header_fold_lookup ls :
  forall d k v,
    foldl header_line d ls !! k = Some v ->
    d !! k = Some v ∨
    exists line g0 g1, line ∈ ls ∧ PyRe.search 1 line = Some (g0, [g1]) ∧
      k = header_key g0 ∧ v = PyFloat.of_decimal g1.
Proof.
  induction ls as [|line ls IH]; intros d k v Hl; [by left|].
  simpl in Hl. apply IH in Hl as [Hl | (l' & g0 & g1 & Hin & ?)].
  - unfold header_line in Hl.
    destruct (PyRe.search 1 line) as [[g0 [|g1 [|? ?]]]|] eqn:Hs; try by left.
    destruct (decide (header_key g0 = k)) as [<-|Hne].
    + rewrite lookup_insert_eq in Hl. injection Hl as <-.
      right. exists line, g0, g1. split; [left | done].
    + rewrite lookup_insert_ne in Hl by done. by left.
  - right. exists l', g0, g1. split; [by right | done].
Qed.

End header_facts.

(** The range of [get_yutiming_header_data] counts lines from 1 and
    includes both ends: the lines before [header_start] and after
    [header_end] have no influence on the result. *)
Theorem header_range (pre mid post : list string) :
  Yutiming.get_yutiming_header_data (pre ++ mid ++ post)
      (Z.of_nat (length pre) + 1) (Z.of_nat (length pre + length mid))
    = foldl Yutiming.header_line ∅ mid.
Proof.
  unfold Yutiming.get_yutiming_header_data.
  replace (Z.of_nat (length pre) + 1 - 1)%Z with (Z.of_nat (length pre)) by lia.
  rewrite slice_nat, drop_app_length.
  replace (length pre + length mid - length pre) with (length mid) by lia.
  by rewrite take_app_length.
Qed.

(** Every entry of the header dictionary comes from a line of the range
    that the pattern matches: its key is the name capture of the line,
    stripped, without trailing colons, so it neither starts with
    whitespace nor ends with a colon; its value is the number of the line
    and is not negative. *)
Theorem header_entries (lines : list string) (a b : Z) (k : string) (v : Q) :
  Yutiming.get_yutiming_header_data lines a b !! k = Some v ->
  (exists line g0 g1,
     line ∈ Yutiming.slice lines (a - 1) b ∧
     PyRe.search 1 line = Some (g0, [g1]) ∧
     k = Yutiming.header_key g0 ∧ v = PyFloat.of_decimal g1) ∧
  str_last k ≠ Some ":"%char ∧
  (forall c, str_head k = Some c -> PyStr.is_space c = false) ∧
  (0 <= v)%Q.
Proof.
  intros Hl. apply header_fold_lookup in Hl as [Hl | (line & g0 & g1 & Hin & Hs & -> & ->)].
  { by rewrite lookup_empty in Hl. }
  split; [by exists line, g0, g1|]. split; [|split].
  - intros Hlast. by apply str_last_rstrip in Hlast.
  - intros c Hc. unfold Yutiming.header_key in Hc.
    by apply str_head_rstrip, str_head_strip in Hc.
  - apply of_decimal_nonneg.
Qed.

Lemma header_entries_witness :
  (exists line g0 g1,
     line ∈ Yutiming.slice
              ["a"; "Time for the setup of the model:   12.34"; "b"] (2 - 1) 2 ∧
     PyRe.search 1 line = Some (g0, [g1]) ∧
     "Time for the setup of the model" = Yutiming.header_key g0 ∧
     PyFloat.of_decimal "12.34" = PyFloat.of_decimal g1) ∧
  str_last "Time for the setup of the model" ≠ Some ":"%char ∧
  (forall c, str_head "Time for the setup of the model" = Some c ->
             PyStr.is_space c = false) ∧
  (0 <= PyFloat.of_decimal "12.34")%Q.
Proof.
  apply (header_entries
           ["a"; "Time for the setup of the model:   12.34"; "b"] 2 2).
  vm_compute. reflexivity.
Defined.

(** ** The constructor of [RowData] *)

Section init_facts.

Import Row.

Lemma not_reserved a :
  a ∉ reserved ->
  (a ∉ ["name"; "data"]) ∧ a ≠ "children" ∧ a ≠ "parent" ∧
  (a ∉ ["child_names"; "child_dict"]) ∧ (a ∉ class_attrs) ∧
  a ≠ "child_names" ∧ a ≠ "child_dict" ∧ a ≠ "name" ∧ a ≠ "data".
Proof.
  unfold reserved, properties. rewrite !elem_of_app, !not_elem_of_cons.
  rewrite !elem_of_cons. tauto.
Qed.

(** One round of the loop of [__init__] goes through exactly for a name
    that is neither reserved nor set before. *)
Lemma init_round_ok dyn key value :
  key ∉ reserved -> dyn !! key = None ->
  init_hasattr dyn key = Ok false ∧
  init_setattr dyn key value = Ok (<[key := value]> dyn).
Proof.
  intros (H1 & Hc & Hp & Hn & H3 & _)%not_reserved Hdyn.
  unfold init_hasattr, init_setattr.
  rewrite (bool_decide_eq_false_2 _ H1).
  rewrite (bool_decide_eq_false_2 (is_Some (dyn !! key)))
    by (rewrite Hdyn; by intros [? ?]).
  rewrite (bool_decide_eq_false_2 _ Hc), (bool_decide_eq_false_2 _ Hp).
  rewrite (bool_decide_eq_false_2 _ Hn), (bool_decide_eq_false_2 _ H3).
  done.
Qed.

Lemma init_round_inv dyn key value dyn' :
  init_hasattr dyn key = Ok false ->
  init_setattr dyn key value = Ok dyn' ->
  (key ∉ reserved) ∧ dyn !! key = None ∧ dyn' = <[key := value]> dyn.
Proof.
  unfold init_hasattr, init_setattr.
  intros Hh Hs.
  destruct (bool_decide (key ∈ ["name"; "data"])) eqn:H1; [done|].
  destruct (bool_decide (is_Some (dyn !! key))) eqn:H2; [done|].
  destruct (bool_decide (key = "children")) eqn:H3.
  { by destruct (bool_decide (is_Some (dyn !! "_parent"))). }
  destruct (bool_decide (key = "parent")) eqn:H4; [done|].
  destruct (bool_decide (key ∈ ["child_names"; "child_dict"])) eqn:H5; [done|].
  destruct (bool_decide (key ∈ class_attrs)) eqn:H6; [done|].
  apply bool_decide_eq_false in H1, H2, H3, H4, H5, H6.
  injection Hs as <-. split; [|split; [|done]].
  - unfold reserved, properties. rewrite !elem_of_app.
    rewrite !not_elem_of_cons in H1, H5. rewrite !elem_of_cons, !elem_of_nil.
    tauto.
  - by apply eq_None_not_Some.
Qed.

Lemma init_loop_ok items :
  forall dyn,
    NoDup (PyStr.lower <$> (items.*1)) ->
    (forall k, k ∈ items.*1 ->
       (PyStr.lower k ∉ reserved) ∧ dyn !! PyStr.lower k = None) ->
    init_loop dyn items = Ok (set_all dyn items).
Proof.
  induction items as [|[k v] items IH]; intros dyn Hnd Hall; [done|].
  simpl in *. apply NoDup_cons in Hnd as [Hk Hnd].
  destruct (Hall k) as [Hres Hdyn]; [left|].
  destruct (init_round_ok dyn (PyStr.lower k) v Hres Hdyn) as [-> ->].
  apply IH; [done|]. intros k' Hk'.
  destruct (Hall k') as [? ?]; [by right|]. split; [done|].
  rewrite lookup_insert_ne; [done|].
  intros Heq. apply Hk. rewrite Heq. by apply list_elem_of_fmap_2.
Qed.

Lemma init_loop_inv items :
  forall dyn dyn',
    init_loop dyn items = Ok dyn' ->
    NoDup (PyStr.lower <$> (items.*1)) ∧
    (forall k, k ∈ items.*1 ->
       (PyStr.lower k ∉ reserved) ∧ dyn !! PyStr.lower k = None) ∧
    dyn' = set_all dyn items.
Proof.
  induction items as [|[k v] items IH]; intros dyn dyn' Hrun.
  - injection Hrun as <-. split; [constructor|]. split; [|done].
    by intros k ?%elem_of_nil.
  - simpl in Hrun.
    destruct (init_hasattr dyn (PyStr.lower k)) as [[]|] eqn:Hh; try done.
    destruct (init_setattr dyn (PyStr.lower k) v) as [dyn1|] eqn:Hs; [|done].
    destruct (init_round_inv _ _ _ _ Hh Hs) as (Hres & Hdyn & ->).
    destruct (IH _ _ Hrun) as (Hnd & Hall & ->).
    split; [|split; [|done]].
    + simpl. apply NoDup_cons. split; [|done].
      intros (k' & Heq & Hk')%list_elem_of_fmap.
      destruct (Hall k' Hk') as [_ Hl].
      by rewrite <- Heq, lookup_insert_eq in Hl.
    + simpl. intros k' [->|Hk']%elem_of_cons; [done|].
      destruct (Hall k' Hk') as [? Hl]. split; [done|].
      destruct (decide (PyStr.lower k = PyStr.lower k')) as [Heq|Hne].
      * by rewrite Heq, lookup_insert_eq in Hl.
      * by rewrite lookup_insert_ne in Hl.
Qed.

Lemma set_all_lookup_other items :
  forall dyn a, a ∉ PyStr.lower <$> (items.*1) ->
                set_all dyn items !! a = dyn !! a.
Proof.
  induction items as [|[k v] items IH]; intros dyn a Ha; [done|].
  simpl in *. apply not_elem_of_cons in Ha as [Hne Ha].
  unfold set_all in *. simpl. rewrite IH by done.
  by rewrite lookup_insert_ne.
Qed.

Lemma set_all_lookup items :
  forall dyn k v,
    NoDup (PyStr.lower <$> (items.*1)) -> (k, v) ∈ items ->
    set_all dyn items !! PyStr.lower k = Some v.
Proof.
  induction items as [|[k0 v0] items IH]; intros dyn k v Hnd Hin.
  - by apply elem_of_nil in Hin.
  - simpl in Hnd. apply NoDup_cons in Hnd as [Hk Hnd].
    apply elem_of_cons in Hin as [[= -> ->]|Hin].
    + unfold set_all. simpl. fold (set_all (<[PyStr.lower k0:=v0]> dyn) items).
      rewrite set_all_lookup_other by done. apply lookup_insert_eq.
    + unfold set_all. simpl. fold (set_all (<[PyStr.lower k0:=v0]> dyn) items).
      by apply IH.
Qed.

End init_facts.

(** The constructor accepts a set of keywords exactly when no two of them
    are equal up to case, none is named [self], and none is, up to case,
    [name], [data], a property or a method of the class (or another name
    that instances inherit). *)
Theorem new_succeeds_iff (nm : string) (items : list (string * Q)) (h : heap) :
  fields_ok items <-> exists h' r, Row.new nm items h = (h', Ok r).
Proof.
  unfold fields_ok, Row.new. rewrite Forall_forall. split.
  - intros [Hnd Hall].
    rewrite bool_decide_eq_false_2.
    2:{ rewrite Exists_exists. intros ([k v] & Hin & Hk). simpl in Hk.
        destruct (Hall k) as [Hres Hself];
          [by apply (list_elem_of_fmap_2 fst _ (k, v))|].
        destruct Hk as [->| ->]; [done|].
        apply Hres. unfold reserved. apply elem_of_app. left. left. }
    rewrite init_loop_ok; [by eexists _, _ | done |].
    intros k Hk. split; [by apply Hall | apply lookup_empty].
  - intros (h' & r & Hrun). case_bool_decide as Hex; [done|].
    destruct (Row.init_loop ∅ items) as [dyn|] eqn:Hloop; [|done].
    destruct (init_loop_inv _ _ _ Hloop) as (Hnd & Hall & _).
    split; [done|]. intros k Hk. split; [by apply Hall|].
    intros ->. apply Hex. apply Exists_exists.
    apply list_elem_of_fmap in Hk as ([k v] & Hkv & Hin). simpl in Hkv.
    exists (k, v). split; [done|]. left. by simpl.
Qed.

Section init_errors.

Import Row.

Lemma init_loop_app pre rest :
  forall dyn,
    init_loop dyn (pre ++ rest) =
      match init_loop dyn pre with
      | Ok d => init_loop d rest
      | Raise e => Raise e
      end.
Proof.
  induction pre as [|[k v] pre IH]; intros dyn; [done|].
  simpl. destruct (init_hasattr dyn (PyStr.lower k)) as [[]|]; try done.
  by destruct (init_setattr dyn (PyStr.lower k) v).
Qed.

Lemma set_all_lookup_Some items a :
  a ∈ PyStr.lower <$> (items.*1) -> is_Some (set_all ∅ items !! a).
Proof.
  intros Hin. destruct (set_all ∅ items !! a) eqn:Hl; [by eexists|].
  exfalso. revert Hin Hl. generalize (∅ : gmap string Q).
  induction items as [|[k v] items IH]; intros dyn Hin Hl.
  - by apply elem_of_nil in Hin.
  - simpl in Hin. unfold set_all in Hl. simpl in Hl.
    fold (set_all (<[PyStr.lower k:=v]> dyn) items) in Hl.
    destruct (decide (a ∈ PyStr.lower <$> (items.*1))) as [Ha|Ha].
    + by eapply IH.
    + rewrite set_all_lookup_other in Hl by done.
      apply elem_of_cons in Hin as [->|]; [|done].
      by rewrite lookup_insert_eq in Hl.
Qed.

Lemma class_attrs_not_properties :
  Forall (fun a => a ≠ "children" ∧ a ≠ "parent" ∧
                   (a ∉ ["child_names"; "child_dict"])) class_attrs.
Proof.
  apply (bool_decide_unpack _). by vm_compute.
Qed.

End init_errors.

(** The error of the first keyword that the constructor refuses, after
    keywords it accepts: a keyword equal up to case to [name], to [data],
    to a method or inherited name, or to an earlier keyword raises
    [ValueError] ('Cannot overwrite attribute'); a keyword equal up to
    case to one of the properties [children], [child_names],
    [child_dict], [parent] raises [AttributeError] instead.  No row is
    added to the heap. *)
Theorem new_collision_error (nm : string) (pre post : list (string * Q))
    (k : string) (v : Q) (h : heap) :
  fields_ok pre ->
  ¬ Exists (fun kv => kv.1 = "self" ∨ kv.1 = "name") (pre ++ (k, v) :: post) ->
  ((PyStr.lower k ∈ ["name"; "data"] ++ Row.class_attrs ∨
    PyStr.lower k ∈ PyStr.lower <$> (pre.*1)) ->
   Row.new nm (pre ++ (k, v) :: post) h
     = (h, Raise (ValueError (CannotOverwrite (PyStr.lower k))))) ∧
  (PyStr.lower k ∈ Row.properties ->
   (PyStr.lower k ∉ PyStr.lower <$> (pre.*1)) ->
   ("_parent" ∉ PyStr.lower <$> (pre.*1)) ->
   ("_children" ∉ PyStr.lower <$> (pre.*1)) ->
   Row.new nm (pre ++ (k, v) :: post) h = (h, Raise AttributeError)).
Proof.
  intros [Hnd Hall] Hex. rewrite Forall_forall in Hall.
  assert (Row.init_loop ∅ pre = Ok (set_all ∅ pre)) as Hpre.
  { apply init_loop_ok; [done|]. intros k' Hk'.
    split; [by apply Hall | apply lookup_empty]. }
  unfold Row.new. rewrite (bool_decide_eq_false_2 _ Hex).
  rewrite init_loop_app, Hpre. simpl. split.
  - intros Hk. assert (Row.init_hasattr (set_all ∅ pre) (PyStr.lower k) = Ok true) as ->; [|done].
    unfold Row.init_hasattr.
    case_bool_decide as H1; [done|].
    case_bool_decide as H2; [done|].
    destruct Hk as [Hk|Hk]; [|by apply set_all_lookup_Some in Hk].
    apply elem_of_cons in Hk as [Hk|Hk];
      [exfalso; apply H1; rewrite Hk; left|].
    apply elem_of_cons in Hk as [Hk|Hk];
      [exfalso; apply H1; rewrite Hk; right; left|].
    pose proof class_attrs_not_properties as Hcls.
    rewrite Forall_forall in Hcls. destruct (Hcls _ Hk) as (Hc & Hp & Hn).
    rewrite (bool_decide_eq_false_2 _ Hc), (bool_decide_eq_false_2 _ Hp).
    rewrite (bool_decide_eq_false_2 _ Hn). by rewrite bool_decide_eq_true_2.
  - intros Hk Hfresh Hpar Hchi.
    assert (set_all ∅ pre !! PyStr.lower k = None) as Hk0
      by (by rewrite set_all_lookup_other).
    assert (set_all ∅ pre !! "_parent" = None) as Hp0
      by (by rewrite set_all_lookup_other).
    assert (set_all ∅ pre !! "_children" = None) as Hc0
      by (by rewrite set_all_lookup_other).
    unfold Row.init_hasattr, Row.init_setattr. rewrite Hk0, Hp0, Hc0.
    unfold Row.properties in Hk. rewrite !elem_of_cons in Hk.
    destruct Hk as [->|[->|[->|[->|Hk]]]]; [done..|].
    by apply elem_of_nil in Hk.
Qed.

Lemma new_collision_error_witness :
  (Row.new "r" ([("min", 1%Q)] ++ ("MIN", 2%Q) :: []) []
     = ([], Raise (ValueError (CannotOverwrite (PyStr.lower "MIN"))))) ∧
  (Row.new "r" ([("min", 1%Q)] ++ ("Parent", 2%Q) :: []) []
     = ([], Raise AttributeError)).
Proof.
  assert (fields_ok [("min", 1%Q)]) as Hok.
  { split; [apply (bool_decide_unpack _); by vm_compute|].
    constructor; [|constructor].
    split; [apply (bool_decide_unpack _); by vm_compute | discriminate]. }
  split.
  - apply (proj1 (new_collision_error "r" [("min", 1%Q)] [] "MIN" 2%Q [] Hok
                    ltac:(apply (bool_decide_unpack _); by vm_compute))).
    right. apply (bool_decide_unpack _). by vm_compute.
  - apply (proj2 (new_collision_error "r" [("min", 1%Q)] [] "Parent" 2%Q [] Hok
                    ltac:(apply (bool_decide_unpack _); by vm_compute)));
      apply (bool_decide_unpack _); by vm_compute.
Defined.

(** A row that the constructor returns is new in the heap, has the given
    name, no parent and no children, and holds every keyword as an
    attribute: item lookup with the keyword, in any case of its letters,
    returns the value.  The exceptions are keywords named [_parent] and
    [_children], which the constructor accepts and then overwrites. *)
Theorem new_row_lookup (nm : string) (items : list (string * Q))
    (h h' : heap) (r : ref) :
  Row.new nm items h = (h', Ok r) ->
  r = length h ∧ length h' = S (length h) ∧
  (forall y, y < length h -> row h' y = row h y) ∧
  name (row h' r) = nm ∧ Row.parent h' r = None ∧ Row.children h' r = [] ∧
  (forall k v key,
     (k, v) ∈ items -> PyStr.lower key = PyStr.lower k ->
     PyStr.lower k ≠ "_parent" -> PyStr.lower k ≠ "_children" ->
     Row.getitem h' r key = Ok (Row.VFloat v)) ∧
  Row.getitem h' r "_parent" = Ok Row.VNone ∧
  Row.getitem h' r "_children" = Ok (Row.VRows []).
Proof.
  intros Hnew.
  pose proof (new_attrs_lowercase _ _ _ _ _ Hnew) as Hlow.
  revert Hnew Hlow. unfold Row.new. case_bool_decide as Hex; [done|].
  destruct (Row.init_loop ∅ items) as [dyn|] eqn:Hloop; [|done].
  destruct (init_loop_inv _ _ _ Hloop) as (Hnd & Hall & ->).
  intros [= <- <-] Hlow.
  split; [done|]. split; [rewrite length_app; simpl; lia|].
  split; [intros y Hy; by apply row_alloc_old|].
  set (h' := h ++ [mkRow nm (list_to_map (prod_map id DFloat <$> items))
       (delete "_children" (delete "_parent" (set_all ∅ items))) None []])
    in *.
  assert (row h' (length h) = mkRow nm (list_to_map (prod_map id DFloat <$> items))
       (delete "_children" (delete "_parent" (set_all ∅ items))) None [])
    as Hrow by apply row_alloc_new.
  unfold Row.parent, Row.children. rewrite Hrow. simpl.
  split; [done|]. split; [done|]. split; [done|]. split.
  2:{ unfold Row.getitem, Row.getattr, Row.parent, Row.children.
      rewrite Hrow. simpl. by split. }
  intros k v key Hin Hkey Hp Hc.
  assert (PyStr.lower k ∉ reserved) as Hres.
  { by apply Hall, (list_elem_of_fmap_2 fst _ (k, v)). }
  apply not_reserved in Hres as (_ & H1 & H2 & _ & H3 & H4 & H5 & H6 & H7).
  assert (forall a, a = PyStr.lower k ->
    Row.getattr h' (length h) a = Some (Row.VFloat v)) as Hget.
  { intros a ->. unfold Row.getattr. rewrite Hrow. simpl.
    rewrite !bool_decide_eq_false_2 by done.
    rewrite !lookup_delete_ne by done.
    by rewrite (set_all_lookup items ∅ k v). }
  unfold Row.getitem.
  destruct (Row.getattr _ (length h) key) as [w|] eqn:Hk.
  - assert (PyStr.lower key = key) as Hlk
      by (eapply getattr_lowercase; [exact Hlow | by eexists]).
    rewrite Hget in Hk by congruence. congruence.
  - by rewrite Hget.
Qed.

Lemma new_row_lookup_witness :
  exists h',
    Row.new "Root" [("Max", 3%Q)] [] = (h', Ok 0) ∧
    Row.getitem h' 0 "MAX" = Ok (Row.VFloat 3%Q).
Proof.
  eexists. split; [reflexivity|].
  refine (proj1 (proj2 (proj2 (proj2 (proj2 (proj2 (proj2
    (new_row_lookup "Root" [("Max", 3%Q)] [] _ 0 eq_refl)))))))
    "Max" 3%Q "MAX" _ _ _ _).
  - left.
  - reflexivity.
  - discriminate.
  - discriminate.
Defined.

(** ** What the row pattern captures *)

Section search_facts.

Import PyStr PyRe.

Lemma append_cons (x : ascii) (a b : string) :
  String.append (String x a) b = String x (String.append a b).
Proof. reflexivity. Qed.

Lemma append_assoc_s (a b c : string) :
  String.append (String.append a b) c = String.append a (String.append b c).
Proof.
  induction a as [|x a IH]; [done|]. by rewrite !append_cons, IH.
Qed.

Lemma span_append p s : String.append (fst (span p s)) (snd (span p s)) = s.
Proof.
  induction s as [|c s IH]; [done|]. simpl.
  destruct (p c); [|done]. destruct (span p s). simpl in *.
  by rewrite append_cons, IH.
Qed.

Lemma take_leading_all p s :
  forall j, j ≤ leading p s -> drop_while p (take j s) = EmptyString.
Proof.
  induction s as [|c s IH]; intros [|j] Hj; try done.
  rewrite leading_cons in Hj. simpl.
  destruct (p c); [apply IH; lia | lia].
Qed.

Lemma span_all p s : drop_while p (fst (span p s)) = EmptyString.
Proof.
  induction s as [|c s IH]; [done|]. simpl.
  destruct (p c) eqn:Hc; [|done]. destruct (span p s). simpl in *.
  by rewrite Hc.
Qed.

Lemma try_frac_inv k ip r2 :
  forall j cs0,
    try_frac k ip r2 j = Some cs0 ->
    exists j' cs, j' ≤ j ∧
      cs0 = String.append ip (String "." (take j' r2)) :: cs ∧
      k (lstrip_ws (drop j' r2)) = Some cs.
Proof.
  induction j as [|j IH]; intros cs0 Hrun; cbn [try_frac] in Hrun.
  - destruct (k (lstrip_ws (drop 0 r2))) as [cs|] eqn:Hk; [|done].
    injection Hrun as <-. by exists 0, cs.
  - destruct (k (lstrip_ws (drop (S j) r2))) as [cs|] eqn:Hk.
    + injection Hrun as <-. by exists (S j), cs.
    + destruct (IH _ Hrun) as (j' & cs & ? & ? & ?).
      exists j', cs. split; [lia | done].
Qed.

Lemma match_cols_shape n :
  forall s cs, match_cols n s = Some cs -> length cs = n ∧ Forall decimal cs.
Proof.
  induction n as [|n IH]; intros s cs Hrun; simpl in Hrun.
  - by injection Hrun as <-.
  - pose proof (span_all is_digit s) as Hip.
    destruct (span is_digit s) as [ip r1]. simpl in Hip.
    destruct ip as [|a ip]; [done|].
    destruct r1 as [|b r2]; [done|].
    destruct (Ascii.eqb_spec b "."%char) as [->|Hb].
    2:{ exfalso. revert Hrun.
        by destruct b as [[] [] [] [] [] [] [] []]. }
    apply try_frac_inv in Hrun as (j & cs' & Hj & -> & Hk).
    destruct (IH _ _ Hk) as [Hlen Hall].
    split; [simpl; by rewrite Hlen|]. constructor; [|done].
    exists (String a ip), (take j r2).
    split; [done|]. split; [done|]. split; [done|].
    by apply take_leading_all.
Qed.

Lemma scan_name_inv n s :
  forall acc nm cs,
    scan_name n acc s = Some (nm, cs) ->
    exists rest, String.append acc s = String.append nm rest ∧
                 match_cols n rest = Some cs.
Proof.
  induction s as [|c s IH]; intros acc nm cs Hrun; simpl in Hrun.
  - destruct (match_cols n EmptyString) as [cs'|] eqn:Hm; [|done].
    injection Hrun as <- <-. by exists EmptyString.
  - destruct (match_cols n (String c s)) as [cs'|] eqn:Hm.
    + injection Hrun as <- <-. by exists (String c s).
    + destruct (Ascii.eqb c "010"); [done|].
      apply IH in Hrun as (rest & Heq & ?). exists rest. split; [|done].
      by rewrite <- Heq, append_assoc_s.
Qed.

End search_facts.

(** A match of the row pattern with [n] data columns splits the line into
    the name capture and a rest on which the columns match; it captures
    exactly [n] texts, each of the shape [digits . digits] with at least
    one digit before the point, so that [float] reads every one of them,
    as a number that is not negative. *)
Theorem search_shape (n : nat) (line nm : string) (cs : list string) :
  PyRe.search n line = Some (nm, cs) ->
  (exists rest, line = String.append nm rest ∧
                PyRe.match_cols n rest = Some cs) ∧
  length cs = n ∧
  Forall decimal cs ∧
  Forall (fun c => (0 <= PyFloat.of_decimal c)%Q) cs.
Proof.
  unfold PyRe.search. intros Hrun.
  pose proof (span_append PyStr.is_space line) as Hline.
  destruct (PyStr.span PyStr.is_space line) as [ws r]. simpl in Hline.
  apply scan_name_inv in Hrun as (rest & Heq & Hm).
  destruct (match_cols_shape _ _ _ Hm) as [Hlen Hall].
  split; [exists rest; by rewrite <- Hline|].
  split; [done|]. split; [done|].
  apply Forall_forall. intros c _. apply of_decimal_nonneg.
Qed.

Lemma search_shape_witness :
  (exists rest, "  Child 0.1 0.2 0.3 0.4" = String.append "  Child " rest ∧
                PyRe.match_cols 4 rest = Some ["0.1"; "0.2"; "0.3"; "0.4"]) ∧
  length ["0.1"; "0.2"; "0.3"; "0.4"] = 4 ∧
  Forall decimal ["0.1"; "0.2"; "0.3"; "0.4"] ∧
  Forall (fun c => (0 <= PyFloat.of_decimal c)%Q) ["0.1"; "0.2"; "0.3"; "0.4"].
Proof.
  apply (search_shape 4 "  Child 0.1 0.2 0.3 0.4"). reflexivity.
Defined.

(** ** The rows that [parse_lines] creates *)

Section parse_rows.

Import Parser.

Lemma heap_length_alter (f : RowData -> RowData) i (h : heap) :
  length (alter f i h) = length h.
Proof. apply length_alter. Qed.

(** Relating two rows changes nothing but the parent of the one and the
    children of the other, whatever the outcome. *)
Lemma relation_frame r p h h2 out :
  Row.set_child_parent_relation r p h = (h2, out) ->
  length h2 = length h ∧
  (forall y, same_fields (row h2 y) (row h y)) ∧
  (forall y, y ≠ r -> y ≠ p -> row h2 y = row h y).
Proof.
  unfold Row.set_child_parent_relation, bind, Row.set_parent, Row.add_child.
  case_bool_decide; [by intros [= <- <-]|].
  case_bool_decide; [by intros [= <- <-]|].
  case_bool_decide; intros [= <- <-].
  - split; [by rewrite heap_length_alter|]. split.
    + intros y. unfold same_fields. rewrite row_alter.
      by case_decide as Hy; [destruct Hy as [-> _]|].
    + intros y Hr Hp. by rewrite row_alter_ne.
  - split; [by rewrite !heap_length_alter|]. split.
    + intros y. unfold same_fields. rewrite !row_alter.
      unfold Row.with_children, Row.with_parent.
      repeat (case_decide as Hy; [destruct Hy as [-> _]|]); simpl;
        try done.
      by destruct (decide (r = y ∧ r < length h)) as [[-> _]|].
    + intros y Hr Hp. by rewrite !row_alter_ne.
Qed.

Lemma attach_frame t r d h1 p' s' out :
  attach t r d (h1, p') = (s', out) ->
  s'.2 = p' ∧ length s'.1 = length h1 ∧
  (forall y, same_fields (row s'.1 y) (row h1 y)) ∧
  (forall y, y ≠ r -> (forall l, t = Some l -> y ∉ l) ->
             row s'.1 y = row h1 y).
Proof.
  destruct t as [l|]; simpl.
  2:{ intros [= <- <-]. by repeat split. }
  destruct (length l <? d); [intros [= <- <-]; by repeat split|].
  unfold bind, except_IndexError_pass, last_entry.
  destruct (last (take d l)) as [p|] eqn:Hlast.
  2:{ intros [= <- <-]. by repeat split. }
  unfold ret, on_heap. simpl.
  destruct (Row.set_child_parent_relation r p h1) as [h2 o] eqn:Hrel.
  destruct (relation_frame _ _ _ _ _ Hrel) as (Hlen & Hf & Hfr).
  assert (p ∈ l) as Hp.
  { apply last_Some_elem_of in Hlast. by apply (subseteq_take d l). }
  assert (forall y, y ≠ r -> (forall l0, Some l = Some l0 -> y ∉ l0) ->
                    row h2 y = row h1 y) as Hfr'.
  { intros y Hy Hst. apply Hfr; [done|]. intros ->. by apply (Hst l). }
  destruct o as [[]|e];
    [intros [= <- <-]; simpl; split; [done|]; split; [done|]; by split|].
  destruct e; intros [= <- <-]; simpl;
    (split; [done|]; split; [done|]; by split).
Qed.

Lemma new_data nm items h h' r :
  Row.new nm items h = (h', Ok r) ->
  data (row h' r) = list_to_map (prod_map id DFloat <$> items).
Proof.
  unfold Row.new. case_bool_decide; [done|].
  destruct (Row.init_loop ∅ items); [|done].
  intros [= <- <-]. by rewrite row_alloc_new.
Qed.

(** The two ways in which [parse_line] goes through a line. *)
Lemma parse_line_cases t line s s' t' :
  parse_line t line s = (s', Ok t') ->
  (matches (length (data_col_names s.2)) [line] = [] ∧ s' = s ∧ t' = t) ∨
  exists name_raw groups h' r d,
    matches (length (data_col_names s.2)) [line] = [(name_raw, groups)] ∧
    Row.new (row_name name_raw) (row_items s.2 groups) s.1 = (h', Ok r) ∧
    depth (subcategory_indention s.2) name_raw = Ok d ∧
    attach t r d (h', appended s.2 r) = (s', Ok t').
Proof.
  intros Hrun. unfold matches. simpl.
  destruct (decide (line = "")) as [Hl|Hl].
  { rewrite parse_line_skip in Hrun by auto. left.
    rewrite bool_decide_eq_true_2 by done. by inversion Hrun. }
  rewrite bool_decide_eq_false_2 by done.
  destruct (PyRe.search (length (data_col_names s.2)) line)
    as [[name_raw groups]|] eqn:Hm.
  2:{ rewrite parse_line_skip in Hrun by auto. left. by inversion Hrun. }
  right. exists name_raw, groups.
  destruct (Row.new (row_name name_raw) (row_items s.2 groups) s.1)
    as [h' [r|e]] eqn:Hnew.
  2:{ exfalso. revert Hrun. unfold parse_line.
      rewrite bool_decide_eq_false_2 by done.
      unfold bind at 1. unfold get. rewrite Hm.
      unfold bind at 1. unfold on_heap at 1. by rewrite Hnew. }
  destruct (depth (subcategory_indention s.2) name_raw) as [d|e] eqn:Hd.
  2:{ exfalso. revert Hrun. unfold parse_line.
      rewrite bool_decide_eq_false_2 by done.
      unfold bind at 1. unfold get. rewrite Hm.
      unfold bind at 1. unfold on_heap at 1. rewrite Hnew. simpl.
      unfold bind at 1. unfold rows_append, modify. simpl.
      unfold bind at 1. by rewrite Hd. }
  exists h', r, d. repeat split; try done.
  by rewrite <- (parse_line_matched t line s name_raw groups h' r d).
Qed.

Lemma matches_cons n line lines :
  matches n (line :: lines) = matches n [line] ++ matches n lines.
Proof.
  unfold matches. simpl.
  by destruct (if bool_decide (line = "") then None else PyRe.search n line).
Qed.

Lemma parse_loop_rows n0 lines :
  forall t s s',
    forest_inv n0 s.1 -> n0 ≤ length s.1 -> stack_ok n0 s.1 t ->
    parse_loop t lines s = (s', Ok tt) ->
    length s'.1
      = length s.1 + length (matches (length (data_col_names s.2)) lines) ∧
    rows s'.2 = rows s.2 ++ seq (length s.1)
                  (length (matches (length (data_col_names s.2)) lines)) ∧
    data_col_names s'.2 = data_col_names s.2 ∧
    subcategory_indention s'.2 = subcategory_indention s.2 ∧
    (forall y, y < n0 -> row s'.1 y = row s.1 y) ∧
    (forall y, y < length s.1 -> same_fields (row s'.1 y) (row s.1 y)) ∧
    (forall i nr gs,
       matches (length (data_col_names s.2)) lines !! i = Some (nr, gs) ->
       name (row s'.1 (length s.1 + i)) = row_name nr ∧
       data (row s'.1 (length s.1 + i))
         = list_to_map (prod_map id DFloat <$> row_items s.2 gs)).
Proof.
  induction lines as [|line lines IH]; intros t s s' Hinv Hn0 Hst Hrun.
  - injection Hrun as <-. simpl. rewrite Nat.add_0_r, app_nil_r.
    repeat split; try done; intros i nr gs Hi; by rewrite lookup_nil in Hi.
  - simpl in Hrun. unfold bind in Hrun.
    destruct (parse_line t line s) as [s1 [t1|e]] eqn:Hline; [|done].
    destruct (parse_line_inv n0 t line s s1 t1 Hinv Hn0 Hst Hline)
      as (Hinv1 & Hn1 & Hst1).
    specialize (IH t1 s1 s' Hinv1 Hn1 Hst1 Hrun).
    rewrite matches_cons.
    destruct (parse_line_cases _ _ _ _ _ Hline)
      as [(-> & -> & ->) |
          (nr & gs & h' & r & d & -> & Hnew & Hd & Hat)]; [done|].
    destruct (new_inv _ _ _ _ _ Hnew) as (-> & x & -> & Hpx & Hcx & Hnx).
    pose proof (new_data _ _ _ _ _ Hnew) as Hdx.
    destruct (attach_frame _ _ _ _ _ _ _ Hat) as (Hp1 & Hl1 & Hf1 & Hfr1).
    rewrite length_app in Hl1. simpl in Hl1.
    assert (data_col_names s1.2 = data_col_names s.2) as Hcols
      by (by rewrite Hp1).
    rewrite Hcols in IH.
    destruct IH as (Hlen & Hrows & Hc & Hi & Hold & Hfields & Hnew').
    simpl. split; [lia|]. split.
    { rewrite Hrows, Hp1. simpl. rewrite <- (assoc app). do 2 f_equal.
      rewrite Hl1. by replace (length s.1 + 1) with (S (length s.1)) by lia. }
    split; [congruence|]. split; [by rewrite Hi, Hp1|]. split.
    { intros y Hy. rewrite Hold by done. rewrite Hfr1.
      - apply row_alloc_old. lia.
      - lia.
      - intros l -> Hin. specialize (Hst l eq_refl).
        rewrite Forall_forall in Hst. destruct (Hst y Hin). lia. }
    assert (forall y, y ≤ length s.1 ->
              same_fields (row s'.1 y) (row (s.1 ++ [x]) y)) as Hsf.
    { intros y Hy. destruct (Hfields y) as (? & ? & ?); [lia|].
      destruct (Hf1 y) as (? & ? & ?). repeat split; congruence. }
    split.
    { intros y Hy. destruct (Hsf y) as (? & ? & ?); [lia|].
      rewrite row_alloc_old in * by done. by repeat split. }
    intros [|i] nr' gs' Hlk; simpl in Hlk.
    + injection Hlk as <- <-. rewrite Nat.add_0_r.
      destruct (Hsf (length s.1)) as (Hn & Hdt & _); [lia|].
      rewrite Hn, Hdt. rewrite row_alloc_new in Hdx. rewrite row_alloc_new.
      done.
    + destruct (Hnew' i nr' gs' Hlk) as [Hn Hdt].
      replace (length s.1 + S i) with (length s1.1 + i) by lia.
      split; [done|]. rewrite Hdt. by rewrite Hp1.
Qed.

End parse_rows.

(** A successful [parse_lines] creates one row for each line that is not
    empty and that the pattern matches, and no other: the new rows are
    the last in the heap and are appended to [rows] in the order of the
    lines; the constructor arguments of the parser and the rows that
    existed before the call are not changed. *)
Theorem parse_lines_rows (lines : list string) (h0 : heap)
    (p0 : HirarchicalTableParser) (s1 : Parser.state) :
  Parser.parse_lines lines (h0, p0) = (s1, Ok tt) ->
  length s1.1
    = length h0 + length (matches (length (data_col_names p0)) lines) ∧
  rows s1.2 = rows p0 ++ seq (length h0)
                (length (matches (length (data_col_names p0)) lines)) ∧
  data_col_names s1.2 = data_col_names p0 ∧
  subcategory_indention s1.2 = subcategory_indention p0 ∧
  (forall y, y < length h0 -> row s1.1 y = row h0 y).
Proof.
  intros Hrun.
  destruct (parse_loop_rows (length h0) lines None (h0, p0) s1)
    as (? & ? & ? & ? & ? & _);
    [apply forest_inv_init | done | by intros ? | done |].
  by repeat split.
Qed.

Lemma parse_lines_rows_witness :
  length two_level.1
    = length ([] : heap)
      + length (matches (length (data_col_names yutiming_parser))
                  ("" :: "no numbers here" :: two_level_lines)) ∧
  rows two_level.2 = rows yutiming_parser ++ seq (length ([] : heap))
      (length (matches (length (data_col_names yutiming_parser))
                 ("" :: "no numbers here" :: two_level_lines))) ∧
  data_col_names two_level.2 = data_col_names yutiming_parser ∧
  subcategory_indention two_level.2 = subcategory_indention yutiming_parser ∧
  (forall y, y < length ([] : heap) -> row two_level.1 y = row [] y).
Proof.
  apply (parse_lines_rows ("" :: "no numbers here" :: two_level_lines)
           [] yutiming_parser two_level).
  vm_compute. reflexivity.
Defined.

(** After a successful [parse_lines], the row of the [i]-th matched line
    has the name captured on that line, stripped and with its runs of
    whitespace collapsed, and as [data] the column names with the numbers
    of the line: later lines change neither. *)
Theorem parse_lines_row_content (lines : list string) (h0 : heap)
    (p0 : HirarchicalTableParser) (s1 : Parser.state)
    (i : nat) (name_raw : string) (groups : list string) :
  Parser.parse_lines lines (h0, p0) = (s1, Ok tt) ->
  matches (length (data_col_names p0)) lines !! i = Some (name_raw, groups) ->
  name (row s1.1 (length h0 + i)) = Parser.row_name name_raw ∧
  data (row s1.1 (length h0 + i))
    = list_to_map (prod_map id DFloat <$> Parser.row_items p0 groups) ∧
  rows s1.2 !! (length (rows p0) + i) = Some (length h0 + i).
Proof.
  intros Hrun Hi.
  destruct (parse_loop_rows (length h0) lines None (h0, p0) s1)
    as (_ & Hrows & _ & _ & _ & _ & Hnew);
    [apply forest_inv_init | done | by intros ? | done |].
  destruct (Hnew i name_raw groups Hi) as [? ?].
  split; [done|]. split; [done|]. simpl in Hrows.
  rewrite Hrows. unfold ref in *. rewrite lookup_app_r by lia.
  apply lookup_lt_Some in Hi.
  apply lookup_seq. split; lia.
Qed.

Lemma parse_lines_row_content_witness :
  name (row two_level.1 (length ([] : heap) + 1))
    = Parser.row_name "  Child " ∧
  data (row two_level.1 (length ([] : heap) + 1))
    = list_to_map (prod_map id DFloat <$>
        Parser.row_items yutiming_parser ["0.1"; "0.2"; "0.3"; "0.4"]) ∧
  rows two_level.2 !! (length (rows yutiming_parser) + 1)
    = Some (length ([] : heap) + 1).
Proof.
  apply (parse_lines_row_content two_level_lines [] yutiming_parser two_level
           1 "  Child " ["0.1"; "0.2"; "0.3"; "0.4"]).
  - vm_compute. reflexivity.
  - reflexivity.
Defined.

(** ** The ancestor stack *)

Section stack_facts.

Import Parser.

Lemma last_take {A} (l : list A) d :
  d ≤ length l ->
  last (take d l) = match d with 0 => None | S d' => l !! d' end.
Proof.
  intros Hd. rewrite last_lookup, length_take, Nat.min_l by done.
  destruct d as [|d']; [done|]. simpl. apply lookup_take_lt. lia.
Qed.

(** With a stack that is long enough for the depth, [attach] returns:
    relating the new row to its parent never raises. *)
Lemma attach_ok n0 h x l d p' :
  forest_inv n0 h -> stack_ok n0 h (Some l) ->
  _parent x = None -> _children x = [] -> d ≤ length l ->
  exists h2,
    attach (Some l) (length h) d (h ++ [x], p')
      = ((h2, p'), Ok (Some (take d l ++ [length h]))) ∧
    linked h h2 (length h) (last (take d l)).
Proof.
  intros Hinv Hst Hpx Hcx Hd. simpl.
  rewrite (proj2 (Nat.ltb_ge _ _) Hd).
  unfold bind, except_IndexError_pass, last_entry.
  destruct (last (take d l)) as [p|] eqn:Hlast.
  - assert (n0 ≤ p ∧ p < length h) as [Hp0 Hp].
    { specialize (Hst l eq_refl). rewrite Forall_forall in Hst.
      apply Hst. apply last_Some_elem_of in Hlast.
      by apply (subseteq_take d l). }
    destruct (relation_new n0 h x p Hinv Hpx Hcx Hp0 Hp) as (h2 & Hrel & Hlk).
    exists h2. unfold ret, on_heap. simpl. by rewrite Hrel.
  - exists (h ++ [x]). split; [done|]. by apply linked_alloc.
Qed.

Lemma ancestors_linked n0 h h2 r op p path :
  forest_inv n0 h -> linked h h2 r op ->
  ancestors h p path -> n0 ≤ p -> p < length h ->
  ancestors h2 p path.
Proof.
  intros Hinv (_ & -> & Hpar & _) Hanc.
  induction Hanc as [q Hroot | q p0 path Hq Hanc IH]; intros Hq0 Hlt.
  - apply ancestors_root. rewrite Hpar. by rewrite decide_False by lia.
  - destruct (inv_parent _ _ Hinv q p0 Hq0 Hq) as (? & ? & _).
    apply ancestors_step; [|apply IH; lia].
    rewrite Hpar. by rewrite decide_False by lia.
Qed.

Lemma ancestors_take h q path :
  ancestors h q path ->
  forall d, 1 ≤ d -> d ≤ length path + 1 ->
  exists path' p, take d (path ++ [q]) = path' ++ [p] ∧ ancestors h p path'.
Proof.
  induction 1 as [q Hroot | q p0 path Hq Hanc IH]; intros d Hd1 Hd2.
  - simpl in Hd2. assert (d = 1) as -> by lia.
    exists [], q. split; [done|]. by apply ancestors_root.
  - rewrite length_app in Hd2. simpl in Hd2.
    destruct (decide (d ≤ length path + 1)) as [Hle|Hgt].
    + rewrite take_app_le by (rewrite length_app; simpl; lia).
      by apply IH.
    + exists (path ++ [p0]), q. split; [|by apply ancestors_step].
      apply take_ge. rewrite !length_app. simpl. lia.
Qed.

Lemma attach_path n0 h x t d p' s' t' :
  forest_inv n0 h -> stack_ok n0 h t -> stack_path h t ->
  _parent x = None -> _children x = [] ->
  attach t (length h) d (h ++ [x], p') = (s', Ok t') ->
  stack_path s'.1 t'.
Proof.
  intros Hinv Hst Hpath Hpx Hcx Hrun.
  assert (forall h2, linked h h2 (length h) None ->
            stack_path h2 (Some [length h])) as Hroot.
  { intros h2 (Hlen & _ & Hpar & _) k [= <-].
    exists [], (length h). split; [done|]. split; [|done].
    apply ancestors_root. rewrite Hpar. by rewrite decide_True. }
  destruct t as [l|].
  2:{ simpl in Hrun. injection Hrun as <- <-. simpl.
      apply Hroot. by apply linked_alloc. }
  destruct (decide (d ≤ length l)) as [Hd|Hd].
  2:{ simpl in Hrun. by rewrite (proj2 (Nat.ltb_lt _ _)) in Hrun by lia. }
  destruct (attach_ok n0 h x l d p' Hinv Hst Hpx Hcx Hd) as (h2 & Heq & Hlk).
  rewrite Heq in Hrun. injection Hrun as <- <-. simpl.
  destruct d as [|d'].
  { simpl in *. by apply Hroot. }
  destruct (Hpath l eq_refl) as (path & q & -> & Hanc & Hq).
  rewrite length_app in Hd. simpl in Hd.
  destruct (ancestors_take h q path Hanc (S d')) as (path' & p & Htake & Hp);
    [lia | lia |].
  rewrite Htake in *. rewrite last_snoc in Hlk.
  assert (n0 ≤ p ∧ p < length h) as [Hp0 Hplt].
  { specialize (Hst _ eq_refl). rewrite Forall_forall in Hst. apply Hst.
    apply (subseteq_take (S d') (path ++ [q])). rewrite Htake.
    apply elem_of_app. right. left. }
  intros k [= <-]. exists (path' ++ [p]), (length h).
  split; [done|]. destruct Hlk as (Hlen & Hr & Hpar & Hch). split; [|done].
  apply ancestors_step.
  - rewrite Hpar. by rewrite decide_True.
  - eapply ancestors_linked; [exact Hinv | | exact Hp | done | done].
    by repeat split.
Qed.

Lemma run_lines_inv n0 lines :
  forall t s s' t',
    forest_inv n0 s.1 -> n0 ≤ length s.1 -> stack_ok n0 s.1 t ->
    stack_path s.1 t ->
    run_lines t lines s = (s', Ok t') ->
    forest_inv n0 s'.1 ∧ n0 ≤ length s'.1 ∧ stack_ok n0 s'.1 t' ∧
    stack_path s'.1 t'.
Proof.
  induction lines as [|line lines IH];
    intros t s s' t' Hinv Hn0 Hst Hpath Hrun.
  - by injection Hrun as <- <-.
  - simpl in Hrun. unfold bind in Hrun.
    destruct (parse_line t line s) as [s1 [t1|e]] eqn:Hline; [|done].
    destruct (parse_line_inv n0 t line s s1 t1 Hinv Hn0 Hst Hline)
      as (Hinv1 & Hn1 & Hst1).
    apply (IH t1 s1 s' t'); try done.
    destruct (parse_line_cases _ _ _ _ _ Hline)
      as [(_ & -> & ->) | (nr & gs & h' & r & d & _ & Hnew & _ & Hat)];
      [done|].
    destruct (new_inv _ _ _ _ _ Hnew) as (-> & x & -> & Hpx & Hcx & _).
    by apply (attach_path n0 s.1 x t d (appended s.2 (length s.1)) s1 t1).
Qed.

End stack_facts.

(** While [parse_lines] runs, the ancestor stack is the path from a root
    to the row created last: its last entry is that row, and the entries
    before it are the ancestors of the row, the root first. *)
Theorem stack_is_ancestor_path (lines : list string) (h0 : heap)
    (p0 : HirarchicalTableParser) (s : Parser.state) (t : list ref) :
  Parser.run_lines None lines (h0, p0) = (s, Ok (Some t)) ->
  exists path r,
    t = path ++ [r] ∧ ancestors s.1 r path ∧ S r = length s.1.
Proof.
  intros Hrun.
  destruct (run_lines_inv (length h0) lines None (h0, p0) s (Some t))
    as (_ & _ & _ & Hpath);
    [apply forest_inv_init | done | by intros ? | by intros ? | done |].
  by apply Hpath.
Qed.

Lemma stack_is_ancestor_path_witness :
  exists path r,
    [0; 1] = path ++ [r] ∧ ancestors two_level.1 r path ∧
    S r = length two_level.1.
Proof.
  apply (stack_is_ancestor_path two_level_lines [] yutiming_parser two_level).
  vm_compute. reflexivity.
Defined.

(** The parent of a row that is not the first of its call: when its depth
    [d] does not exceed the length of the stack, the line is accepted, a
    row of depth 0 gets no parent, a row of depth [d > 0] gets the entry
    [d - 1] of the stack as its parent, and the stack becomes its first
    [d] entries followed by the row.  The parents of the other rows are
    not changed. *)
Theorem row_parent_by_depth (s0 : Parser.state) (pre : list string)
    (s : Parser.state) (t : list ref) (line name_raw : string)
    (groups : list string) (h' : heap) (r d : nat) :
  Parser.run_lines None pre s0 = (s, Ok (Some t)) ->
  line ≠ "" ->
  PyRe.search (length (data_col_names s.2)) line = Some (name_raw, groups) ->
  Row.new (Parser.row_name name_raw) (Parser.row_items s.2 groups) s.1
    = (h', Ok r) ->
  Parser.depth (subcategory_indention s.2) name_raw = Ok d ->
  d ≤ length t ->
  exists s',
    Parser.run_lines None (pre ++ [line]) s0
      = (s', Ok (Some (take d t ++ [r]))) ∧
    Row.parent s'.1 r = match d with 0 => None | S d' => t !! d' end ∧
    (forall y, y ≠ r -> Row.parent s'.1 y = Row.parent s.1 y) ∧
    rows s'.2 = rows s.2 ++ [r].
Proof.
  intros Hpre Hline Hm Hnew Hd Hle. destruct s0 as [h0 p0].
  destruct (run_lines_inv (length h0) pre None (h0, p0) s (Some t))
    as (Hinv & Hn0 & Hst & _);
    [apply forest_inv_init | done | by intros ? | by intros ? | done |].
  pose proof (parse_line_matched (Some t) line s name_raw groups h' r d
                Hline Hm Hnew Hd) as Hstep.
  destruct (new_inv _ _ _ _ _ Hnew) as (-> & x & -> & Hpx & Hcx & _).
  destruct (attach_ok (length h0) s.1 x t d (Parser.appended s.2 (length s.1))
              Hinv Hst Hpx Hcx Hle) as (h2 & Heq & Hlk).
  exists (h2, Parser.appended s.2 (length s.1)).
  split.
  { rewrite run_lines_app, Hpre. simpl. unfold bind. rewrite Hstep.
    match goal with
    | |- context [Parser.attach ?a ?b ?c ?e] =>
        replace (Parser.attach a b c e)
          with ((h2, Parser.appended s.2 (length s.1)),
                Ok (Some (take d t ++ [length s.1])))
          by (symmetry; exact Heq)
    end.
    done. }
  destruct Hlk as (_ & _ & Hpar & _). simpl. split; [|split; [|done]].
  - rewrite Hpar, decide_True by done. by apply last_take.
  - intros y Hy. rewrite Hpar. by rewrite decide_False.
Qed.

Lemma row_parent_by_depth_witness :
  exists s',
    Parser.run_lines None (take 1 two_level_lines ++ ["  Child 0.1 0.2 0.3 0.4"])
        ([], yutiming_parser)
      = (s', Ok (Some (take 1 [0] ++ [1]))) ∧
    Row.parent s'.1 1 = [0] !! 0 ∧
    (forall y, y ≠ 1 -> Row.parent s'.1 y = Row.parent skipping_before.1 y) ∧
    rows s'.2 = rows skipping_before.2 ++ [1].
Proof.
  apply (row_parent_by_depth ([], yutiming_parser) (take 1 two_level_lines)
           skipping_before [0] "  Child 0.1 0.2 0.3 0.4"
           "  Child " ["0.1"; "0.2"; "0.3"; "0.4"]
           (Row.new (Parser.row_name "  Child ")
              (Parser.row_items yutiming_parser ["0.1"; "0.2"; "0.3"; "0.4"])
              skipping_before.1).1 1 1).
  - vm_compute. reflexivity.
  - discriminate.
  - vm_compute. reflexivity.
  - vm_compute. reflexivity.
  - reflexivity.
  - simpl. lia.
Defined.

(** ** [get_child_depth] *)

Section child_depth_facts.

Import Row.

Lemma child_depth_loop_offset d f0 fd cs :
  (forall c, fd c = offset d (f0 c)) ->
  forall acc,
    child_depth_loop fd cs (d + acc) = offset d (child_depth_loop f0 cs acc).
Proof.
  intros Hf. induction cs as [|c cs IH]; intros acc; [done|].
  simpl. rewrite Hf. destruct (f0 c) as [m|e]; [|done]. simpl.
  replace (if d + acc <? d + m then d + m else d + acc)
    with (d + (if acc <? m then m else acc)); [apply IH|].
  destruct (Nat.ltb_spec acc m), (Nat.ltb_spec (d + acc) (d + m)); lia.
Qed.

Lemma child_depth_loop_bounds f lo B cs :
  (forall c, c ∈ cs -> exists m, f c = Ok m ∧ lo ≤ m ∧ m ≤ B) ->
  forall acc, acc ≤ B ->
    exists n, child_depth_loop f cs acc = Ok n ∧ acc ≤ n ∧ n ≤ B ∧
              (cs ≠ [] -> lo ≤ n).
Proof.
  induction cs as [|c cs IH]; intros Hf acc Hacc.
  - exists acc. by repeat split.
  - destruct (Hf c) as (m & Hm & Hlo & HB); [left|].
    simpl. rewrite Hm.
    destruct (IH (fun c' Hc' => Hf c' (list_elem_of_further _ _ _ Hc'))
                 (if acc <? m then m else acc)) as (n & Hn & Hge & Hle & _).
    { by destruct (acc <? m). }
    exists n. split; [done|].
    destruct (Nat.ltb_spec acc m); repeat split; try lia.
Qed.

Lemma get_child_depth_forest n0 h :
  forest_inv n0 h ->
  forall limit self d,
    n0 ≤ self -> length h - self < limit ->
    exists n, get_child_depth limit h self d = Ok n ∧
      d ≤ n ∧ n ≤ d + (length h - S self) ∧
      (n = d <-> children h self = []).
Proof.
  intros Hinv. induction limit as [|limit IH]; intros self d Hself Hlim;
    [lia|].
  simpl.
  assert (forall c, c ∈ children h self ->
            exists m, get_child_depth limit h c (d + 1) = Ok m ∧
                      d + 1 ≤ m ∧ m ≤ d + (length h - S self)) as Hf.
  { intros c Hc.
    destruct (inv_children _ _ Hinv self c Hself Hc) as (Hlt & Hc' & _).
    destruct (IH c (d + 1)) as (m & Hm & Hm1 & Hm2 & _); [lia | lia |].
    exists m. split; [done|]. split; [done|]. lia. }
  destruct (child_depth_loop_bounds
              (fun c => get_child_depth limit h c (d + 1))
              (d + 1) (d + (length h - S self)) (children h self) Hf d)
    as (n & Hn & Hge & Hle & Hne); [lia|].
  exists n. split; [done|]. split; [done|]. split; [done|].
  split.
  - intros ->. destruct (children h self); [done|].
    assert (d + 1 ≤ d) by (by apply Hne). lia.
  - intros Hnil. rewrite Hnil in Hn. simpl in Hn. by injection Hn as <-.
Qed.

End child_depth_facts.

(** The argument [depth] of [get_child_depth] is an offset: the result
    for [depth] is [depth] plus the result for 0, and a call that exceeds
    the recursion limit does so for every [depth]. *)
Theorem get_child_depth_offset (limit : nat) (h : heap) (self : ref)
    (d : nat) :
  Row.get_child_depth limit h self d
    = offset d (Row.get_child_depth limit h self 0).
Proof.
  revert self d. induction limit as [|limit IH]; intros self d; [done|].
  simpl.
  pose proof (child_depth_loop_offset d
    (fun c => Row.get_child_depth limit h c 1)
    (fun c => Row.get_child_depth limit h c (d + 1)) (Row.children h self)) as Hl.
  rewrite <- (Hl ltac:(intros c; cbv beta; rewrite (IH c (d + 1)), (IH c 1);
                      destruct (Row.get_child_depth limit h c 0); simpl;
                      [f_equal; lia | done]) 0).
  by rewrite Nat.add_0_r.
Qed.

(** On the rows that a successful [parse_lines] has created,
    [get_child_depth()] returns as soon as the recursion limit exceeds
    the number of rows created after the row; the result is 0 exactly for
    a row without children, and at most the number of rows created after
    the row. *)
Theorem get_child_depth_of_parsed (lines : list string) (h0 : heap)
    (p0 : HirarchicalTableParser) (s1 : Parser.state)
    (limit : nat) (self : ref) :
  Parser.parse_lines lines (h0, p0) = (s1, Ok tt) ->
  length h0 ≤ self ->
  length s1.1 - self < limit ->
  exists n,
    Row.get_child_depth limit s1.1 self 0 = Ok n ∧
    n ≤ length s1.1 - S self ∧
    (n = 0 <-> Row.has_children s1.1 self = false).
Proof.
  intros Hrun Hself Hlim.
  destruct (parse_loop_inv (length h0) lines None (h0, p0) s1) as [Hinv _];
    [apply forest_inv_init | done | by intros ? | done |].
  destruct (get_child_depth_forest _ _ Hinv limit self 0 Hself Hlim)
    as (n & Hn & _ & Hle & Hiff).
  exists n. split; [done|]. split; [done|].
  rewrite Hiff. unfold Row.has_children.
  rewrite bool_decide_eq_false. split; [by intros -> ?|].
  apply dec_stable.
Qed.

Lemma get_child_depth_of_parsed_witness :
  exists n,
    Row.get_child_depth 3 two_level.1 0 0 = Ok n ∧
    n ≤ length two_level.1 - S 0 ∧
    (n = 0 <-> Row.has_children two_level.1 0 = false).
Proof.
  apply (get_child_depth_of_parsed two_level_lines [] yutiming_parser two_level).
  - vm_compute. reflexivity.
  - simpl. lia.
  - vm_compute. lia.
Defined.

(** ** [as_dict] on the rows of a parse *)

Section as_dict_total.

Import Row.

Lemma forest_inv_same_shape n0 h h2 :
  forest_inv n0 h -> same_shape h h2 -> forest_inv n0 h2.
Proof.
  intros [Hc Hp Hn] [Hlen Hrows].
  assert (forall y, parent h2 y = parent h y) as Hpar
    by (intros y; unfold parent; by destruct (Hrows y) as (_ & _ & -> & _)).
  assert (forall y, children h2 y = children h y) as Hch
    by (intros y; unfold children; by destruct (Hrows y) as (_ & _ & _ & ->)).
  split.
  - intros p c Hp0. rewrite Hch, Hpar, Hlen. by apply Hc.
  - intros r p Hr. rewrite Hpar, Hch. by apply Hp.
  - intros p Hp0. rewrite Hch. by apply Hn.
Qed.

(** A loop in which every round returns the value [g x] and keeps [Q]. *)
Lemma mapM_values {S A B} (Q : S -> Prop) (f : A -> M S B) (g : A -> B) l :
  (forall x st, x ∈ l -> Q st -> exists st', f x st = (st', Ok (g x)) ∧ Q st') ->
  forall st, Q st -> exists st', mapM f l st = (st', Ok (g <$> l)) ∧ Q st'.
Proof.
  induction l as [|x l IH]; intros Hf st HQ.
  - by exists st.
  - destruct (Hf x st) as (st1 & Hx & HQ1); [left | done |].
    destruct IH with (st := st1) as (st2 & Hl & HQ2); [|done|].
    { intros y st' Hy. apply Hf. by right. }
    exists st2. simpl. unfold bind. by rewrite Hx, Hl.
Qed.

(** On a forest, [as_dict] returns when the recursion limit exceeds the
    number of rows that are younger than the row. *)
Lemma as_dict_ok n0 limit :
  forall self h,
    forest_inv n0 h -> n0 ≤ self -> length h - self < limit ->
    exists h', as_dict limit self h = (h', Ok self) ∧ same_shape h h'.
Proof.
  induction limit as [|limit IH]; intros self h Hinv Hself Hlim; [lia|].
  cbn [as_dict]. unfold bind at 1. unfold get at 1. unfold bind at 1.
  destruct (mapM_values (fun h1 => same_shape h h1)
    (fun c => d <- as_dict limit c ;; h' <- get ;; ret (name (row h' c), DDict d))
    (fun c => (name (row h c), DDict c)) (children h self))
    with (st := h) as (h1 & Hmap & Hs1).
  - intros c h1 Hc Hsh.
    destruct (inv_children _ _ Hinv self c Hself Hc) as (Hlt & Hc' & _).
    destruct (IH c h1) as (h2 & Hrun & Hs2).
    + by eapply forest_inv_same_shape.
    + lia.
    + destruct Hsh as [-> _]. lia.
    + assert (same_shape h h2) as Hs by (by eapply same_shape_trans).
      exists h2. split; [|done].
      unfold bind, get, ret. rewrite Hrun.
      by destruct Hs as [_ Hrows], (Hrows c) as (-> & _).
  - apply same_shape_refl.
  - rewrite Hmap. unfold bind, modify, ret. eexists. split; [done|].
    eapply same_shape_trans; [exact Hs1|]. apply same_shape_with_data.
Qed.

End as_dict_total.

Section parser_as_dict.

Import Parser.

Lemma same_shape_roots (s st : state) :
  st.2 = s.2 -> same_shape s.1 st.1 ->
  roots st = roots s ∧ row_names st = row_names s ∧ row_dict st = row_dict s.
Proof.
  intros Hp [_ Hrows].
  assert (roots st = roots s) as Hr.
  { unfold roots. rewrite Hp. apply list_filter_iff. intros r.
    unfold Row.parent. by destruct (Hrows r) as (_ & _ & -> & _). }
  assert (forall r, name (row st.1 r) = name (row s.1 r)) as Hn
    by (intros r; by destruct (Hrows r) as (-> & _)).
  split; [done|]. unfold row_names, row_dict. rewrite Hr.
  split; [by apply list_fmap_ext | ].
  do 2 f_equal. apply list_fmap_ext. intros _ r _. by rewrite Hn.
Qed.

Lemma row_dict_root (s : state) key r :
  row_dict s !! key = Some r -> r ∈ roots s ∧ name (row s.1 r) = key.
Proof.
  unfold row_dict. intros Hl.
  apply elem_of_list_to_map_2, elem_of_reverse, list_elem_of_fmap in Hl.
  by destruct Hl as (r' & [= -> ->] & Hr).
Qed.

Lemma row_names_dict (s : state) key :
  key ∈ row_names s -> is_Some (row_dict s !! key).
Proof.
  intros Hin. apply not_eq_None_Some. unfold row_dict.
  rewrite <- not_elem_of_list_to_map. intros Hn. apply Hn.
  rewrite <- fmap_reverse, <- list_fmap_compose.
  unfold row_names in Hin. apply list_elem_of_fmap in Hin as (r & -> & Hr).
  apply list_elem_of_fmap. exists r. split; [done|]. by apply elem_of_reverse.
Qed.

Lemma list_to_map_function {V} (g : string -> V) (l : list string) k :
  list_to_map (M := gmap string V) (reverse ((fun x => (x, g x)) <$> l)) !! k
    = if decide (k ∈ l) then Some (g k) else None.
Proof.
  induction l as [|x l IH] using rev_ind.
  - cbn [fmap list_fmap reverse rev_append list_to_map foldr].
    rewrite lookup_empty. case_decide as Hk; [|done]. by apply elem_of_nil in Hk.
  - rewrite fmap_app, reverse_app. simpl.
    destruct (decide (x = k)) as [->|Hne].
    + rewrite lookup_insert_eq. rewrite decide_True; [done|].
      apply elem_of_app. right. left.
    + rewrite lookup_insert_ne by done. rewrite IH.
      destruct (decide (k ∈ l)) as [Hin|Hin].
      * rewrite decide_True; [done|]. apply elem_of_app. by left.
      * rewrite decide_False; [done|].
        intros [?|Hx%list_elem_of_singleton]%elem_of_app; [done|].
        by subst.
Qed.

(** The parser's [as_dict] on a forest whose rows are known to the
    invariant. *)
Lemma parser_as_dict_ok n0 limit (s : state) :
  forest_inv n0 s.1 -> Forall (fun r => n0 ≤ r) (rows s.2) ->
  length s.1 - n0 < limit ->
  exists s' d,
    as_dict limit s = (s', Ok d) ∧ s'.2 = s.2 ∧ same_shape s.1 s'.1 ∧
    forall k, d !! k = match getitem s k with
                       | Ok r => Some (DDict r)
                       | Raise _ => None
                       end.
Proof.
  intros Hinv Hrows Hlim.
  set (g := fun nm => (nm, DDict (default 0 (row_dict s !! nm)))).
  unfold as_dict. unfold bind at 1. unfold get at 1. unfold bind at 1.
  destruct (mapM_values (fun st : state => st.2 = s.2 ∧ same_shape s.1 st.1)
    (fun nm =>
       s' <- get ;;
       match row_dict s' !! nm with
       | Some r => d <- on_heap (Row.as_dict limit r) ;; ret (nm, DDict d)
       | None => raise (KeyError nm)
       end) g (row_names s)) with (st := s) as (s' & Hmap & Hp & Hsh).
  - intros nm st Hnm [Hp Hsh].
    destruct (same_shape_roots s st Hp Hsh) as (_ & _ & Hdict).
    destruct (row_names_dict s nm Hnm) as [r Hr].
    destruct (row_dict_root s nm r Hr) as [Hroot _].
    assert (n0 ≤ r) as Hr0.
    { rewrite Forall_forall in Hrows. apply Hrows.
      unfold roots in Hroot. by apply list_elem_of_filter in Hroot as [_ ?]. }
    destruct (as_dict_ok n0 limit r st.1) as (h2 & Hrun & Hs2).
    + by eapply forest_inv_same_shape.
    + done.
    + destruct Hsh as [-> _]. lia.
    + exists (h2, st.2). unfold bind, get. rewrite Hdict.
      unfold ref in *. rewrite Hr.
      unfold on_heap, ret. rewrite Hrun. unfold g. rewrite Hr. simpl.
      split; [done|]. split; [done|]. by eapply same_shape_trans.
  - split; [done | apply same_shape_refl].
  - rewrite Hmap. unfold ret. eexists s', _. split; [done|].
    split; [done|]. split; [done|]. intros k.
    unfold g. rewrite (list_to_map_function
      (fun nm => DDict (default 0 (row_dict s !! nm)))).
    unfold getitem. destruct (decide (k ∈ row_names s)) as [Hin|Hin].
    + rewrite bool_decide_eq_true_2 by done.
      destruct (row_names_dict s k Hin) as [r Hr].
      unfold ref in *. by rewrite !Hr.
    + by rewrite bool_decide_eq_false_2.
Qed.

Lemma length_matches n lines : length (matches n lines) ≤ length lines.
Proof.
  induction lines as [|l lines IH]; [done|].
  rewrite matches_cons, length_app. unfold matches at 1. simpl.
  destruct (if bool_decide (l = "") then None else PyRe.search n l);
    simpl; lia.
Qed.

End parser_as_dict.

(** [get_yutiming_body_data] returns whenever parsing the lines succeeds
    and the recursion limit exceeds the number of lines; an error of
    [parse_lines] is passed on.  The dictionary returned has exactly the
    names of the root rows as keys, and under each name the [data]
    dictionary of the row that the parser returns for that name; rendering
    changes no name, parent or list of children. *)
Theorem body_data_of_roots (limit : nat) (lines : list string) (h : heap)
    (s : Parser.state) :
  (Parser.parse_lines lines (h, Parser.new ["min"; "avg"; "max"; "total"] "  ")
     = (s, Ok tt) ->
   length lines < limit ->
   exists h' d,
     Yutiming.get_yutiming_body_data limit lines h = (h', Ok d) ∧
     same_shape s.1 h' ∧
     forall k, d !! k = match Parser.getitem s k with
                        | Ok r => Some (DDict r)
                        | Raise _ => None
                        end) ∧
  (forall e,
     Parser.parse_lines lines (h, Parser.new ["min"; "avg"; "max"; "total"] "  ")
       = (s, Raise e) ->
     Yutiming.get_yutiming_body_data limit lines h = (s.1, Raise e)).
Proof.
  split.
  - intros Hrun Hlim.
    destruct (parse_loop_inv (length h) lines None
                (h, Parser.new ["min"; "avg"; "max"; "total"] "  ") s)
      as [Hinv _];
      [apply forest_inv_init | done | by intros ? | done |].
    destruct (parse_loop_rows (length h) lines None
                (h, Parser.new ["min"; "avg"; "max"; "total"] "  ") s)
      as (Hlen & Hrows & _);
      [apply forest_inv_init | done | by intros ? | done |].
    simpl in Hlen, Hrows.
    pose proof (length_matches 4 lines) as Hm.
    destruct (parser_as_dict_ok (length h) limit s) as (s' & d & Hd & _ & Hsh & Hk).
    + done.
    + rewrite Hrows. apply Forall_forall. intros r Hr.
      apply elem_of_seq in Hr. lia.
    + lia.
    + exists s'.1, d. unfold Yutiming.get_yutiming_body_data.
      rewrite Hrun, Hd. done.
  - intros e Hrun. unfold Yutiming.get_yutiming_body_data. by rewrite Hrun.
Qed.

Lemma body_data_of_roots_witness :
  exists h' d,
    Yutiming.get_yutiming_body_data 3 two_level_lines [] = (h', Ok d) ∧
    same_shape two_level.1 h' ∧
    forall k, d !! k = match Parser.getitem two_level k with
                       | Ok r => Some (DDict r)
                       | Raise _ => None
                       end.
Proof.
  apply (proj1 (body_data_of_roots 3 two_level_lines [] two_level)).
  - vm_compute. reflexivity.
  - simpl. lia.
Defined.

(** ** The name of a row *)

Section row_name_facts.

Import PyStr.

Lemma collapse_from_twice s :
  forall b,
    collapse_from false (collapse_from b s) = collapse_from b s ∧
    collapse_from true (collapse_from true s) = collapse_from true s.
Proof.
  induction s as [|c s IH]; intros b; [done|].
  destruct (IH true) as [IHt1 IHt2], (IH false) as [IHf1 _].
  cbn [collapse_from]. destruct (is_space c) eqn:Hc.
  - split; [|done]. destruct b; [done|].
    cbn [collapse_from]. change (is_space " ") with true. cbv iota.
    by rewrite IHt2.
  - cbn [collapse_from]. rewrite Hc. by rewrite IHf1.
Qed.

Lemma str_last_cons c s :
  str_last (String c s) = match str_last s with Some x => Some x | None => Some c end.
Proof.
  destruct s as [|d s]; [done|].
  change (str_last (String c (String d s))) with (str_last (String d s)).
  assert (str_last (String d s) ≠ None) as Hn.
  { clear c. revert d. induction s as [|e s IH]; intros d; [done|].
    change (str_last (String d (String e s))) with (str_last (String e s)).
    apply IH. }
  by destruct (str_last (String d s)).
Qed.

Lemma str_last_None s : str_last s = None -> s = EmptyString.
Proof.
  induction s as [|c s IH]; [done|]. rewrite str_last_cons.
  by destruct (str_last s).
Qed.

Lemma str_last_rstrip_ws s c :
  str_last (rstrip_ws s) = Some c -> is_space c = false.
Proof.
  induction s as [|a s IH]; [done|]. cbn [rstrip_ws].
  destruct (rstrip_ws s) as [|b r] eqn:Hr.
  - destruct (is_space a) eqn:Ha; [done|]. by intros [= <-].
  - rewrite str_last_cons. intros Hl. apply IH.
    by destruct (str_last (String b r)) eqn:E;
      [|apply str_last_None in E].
Qed.

Lemma rstrip_ws_id s :
  (forall c, str_last s = Some c -> is_space c = false) -> rstrip_ws s = s.
Proof.
  induction s as [|a s IH]; [done|]. intros Hl. cbn [rstrip_ws].
  rewrite str_last_cons in Hl.
  destruct (str_last s) as [x|] eqn:E.
  - rewrite IH by done. by destruct s.
  - apply str_last_None in E. subst s. simpl. by rewrite Hl.
Qed.

Lemma lstrip_ws_id s :
  (forall c, str_head s = Some c -> is_space c = false) -> lstrip_ws s = s.
Proof.
  destruct s as [|a s]; [done|]. intros Hh. unfold lstrip_ws. simpl.
  by rewrite Hh.
Qed.

Lemma str_head_collapse s c :
  str_head (collapse_from false s) = Some c ->
  (forall a, str_head s = Some a -> is_space a = false) ->
  is_space c = false.
Proof.
  destruct s as [|a s]; [done|]. intros Hh Hs. simpl in Hh.
  rewrite (Hs a) in Hh by done. injection Hh as <-. by apply Hs.
Qed.

Lemma str_last_collapse s :
  forall b c,
    str_last (collapse_from b s) = Some c ->
    (forall a, str_last s = Some a -> is_space a = false) ->
    is_space c = false.
Proof.
  induction s as [|a s IH]; intros b c Hl Hs; [done|].
  rewrite str_last_cons in Hs. cbn [collapse_from] in Hl.
  destruct (str_last s) as [x|] eqn:E.
  - destruct (is_space a).
    + destruct b; [by eapply IH|].
      rewrite str_last_cons in Hl.
      destruct (str_last (collapse_from true s)) as [y|] eqn:Ey.
      * injection Hl as <-. by eapply IH.
      * apply str_last_None in Ey.
        assert (forall r, str_last r = Some x -> is_space x = false ->
                          collapse_from true r ≠ EmptyString) as Hne.
        { clear. induction r as [|d r IHr]; [done|]. rewrite str_last_cons.
          cbn [collapse_from]. destruct (is_space d) eqn:Hd; [|done].
          destruct (str_last r) as [y|] eqn:E.
          - intros [= ->]. by apply IHr.
          - intros [= ->] Hx. congruence. }
        exfalso. by eapply (Hne s); [| apply Hs |].
    + rewrite str_last_cons in Hl.
      destruct (str_last (collapse_from false s)) as [y|] eqn:Ey.
      * injection Hl as <-. by eapply IH.
      * injection Hl as <-. apply str_last_None in Ey.
        assert (forall r, str_last r = Some x -> is_space x = false ->
                          collapse_from false r ≠ EmptyString) as Hne.
        { clear. intros [|d r]; [done|]. cbn [collapse_from].
          by destruct (is_space d). }
        exfalso. by eapply (Hne s); [| apply Hs |].
  - apply str_last_None in E. subst s. cbn [collapse_from] in Hl.
    rewrite (Hs a) in Hl by done. simpl in Hl. injection Hl as <-. by apply Hs.
Qed.

End row_name_facts.

(** The name that [parse_lines] gives a row is in normal form: stripping
    it or collapsing its whitespace changes nothing, so normalising a
    name twice is normalising it once. *)
Theorem row_name_normalized (name_raw : string) :
  PyStr.strip (Parser.row_name name_raw) = Parser.row_name name_raw ∧
  PyStr.collapse_ws (Parser.row_name name_raw) = Parser.row_name name_raw ∧
  Parser.row_name (Parser.row_name name_raw) = Parser.row_name name_raw.
Proof.
  assert (PyStr.collapse_ws (Parser.row_name name_raw)
          = Parser.row_name name_raw) as Hc.
  { unfold Parser.row_name, PyStr.collapse_ws.
    apply (collapse_from_twice (PyStr.strip name_raw) false). }
  assert (PyStr.strip (Parser.row_name name_raw)
          = Parser.row_name name_raw) as Hs.
  { unfold Parser.row_name at 1. unfold PyStr.strip at 1.
    fold (Parser.row_name name_raw).
    rewrite lstrip_ws_id.
    - apply rstrip_ws_id. intros c Hl.
      apply (str_last_collapse _ _ _ Hl). intros a.
      apply str_last_rstrip_ws.
    - intros c Hh. apply (str_head_collapse _ _ Hh).
      intros a. apply str_head_strip. }
  split; [done|]. split; [done|].
  unfold Parser.row_name at 1. by rewrite Hs, Hc.
Qed.

(** ** Relating two rows by hand *)

Section relation_facts.

Lemma child_depth_loop_raise_inv f cs :
  forall acc e,
    Row.child_depth_loop f cs acc = Raise e -> exists c, c ∈ cs ∧ f c = Raise e.
Proof.
  induction cs as [|c cs IH]; intros acc e; [done|]. simpl.
  destruct (f c) as [d|e'] eqn:Hc.
  - intros (x & Hx & Hfx)%IH. exists x. split; [by right | done].
  - intros [= ->]. exists c. split; [by left | done].
Qed.

Lemma child_depth_loop_raises f cs c :
  c ∈ cs -> (exists e, f c = Raise e) ->
  forall acc, exists e, Row.child_depth_loop f cs acc = Raise e.
Proof.
  intros Hin [e He]. induction Hin as [c cs | c x cs Hin IH]; intros acc; simpl.
  - rewrite He. by exists e.
  - destruct (f x) as [d|e']; [apply IH; done | by exists e'].
Qed.

Lemma get_child_depth_raise limit h :
  forall r d e, Row.get_child_depth limit h r d = Raise e -> e = RecursionError.
Proof.
  induction limit as [|limit IH]; intros r d e; simpl; [by intros [= <-]|].
  intros (c & _ & Hc)%child_depth_loop_raise_inv. by eapply IH.
Qed.

Lemma set_parent_then_add_child h c p :
  Row.parent h c = None -> Row.parent h p ≠ Some c ->
  Row.set_child_parent_relation c p h =
    Row.add_child p (ORow c) (alter (Row.with_parent (Some p)) c h).
Proof.
  intros Hc Hp.
  unfold Row.set_child_parent_relation, bind, Row.set_parent.
  unfold Row.parent in Hc. rewrite Hc.
  rewrite bool_decide_eq_false_2 by naive_solver.
  by rewrite bool_decide_eq_false_2.
Qed.

Lemma children_with_parent h c q y :
  Row.children (alter (Row.with_parent q) c h) y = Row.children h y.
Proof.
  unfold Row.children. rewrite row_alter. by case_decide as Hd; [destruct Hd as [-> _]|].
Qed.

Lemma parent_with_children h p (f : RowData -> list ref) y :
  Row.parent (alter (fun r => Row.with_children (f r) r) p h) y = Row.parent h y.
Proof.
  unfold Row.parent. rewrite row_alter. by case_decide as Hd; [destruct Hd as [-> _]|].
Qed.

End relation_facts.

(** [set_child_parent_relation] on two existing rows, the child without
    parent, the parent not a child of it in either direction: it returns,
    the child's parent is the parent, the child is appended to the
    parent's children, and no other parent or children list changes.
    Nothing asks the two rows to be different. *)
Theorem relation_links_both_ways (h : heap) (c p : ref) :
  Row.parent h c = None -> Row.parent h p ≠ Some c ->
  p ∉ Row.children h c -> c < length h -> p < length h ->
  exists h',
    Row.set_child_parent_relation c p h = (h', Ok tt) ∧
    Row.parent h' c = Some p ∧
    Row.children h' p = Row.children h p ++ [c] ∧
    (forall y, y ≠ c -> Row.parent h' y = Row.parent h y) ∧
    (forall y, y ≠ p -> Row.children h' y = Row.children h y).
Proof.
  intros Hc Hp Hin Hlc Hlp.
  rewrite set_parent_then_add_child by done.
  unfold Row.add_child. rewrite children_with_parent.
  rewrite bool_decide_eq_false_2 by done.
  eexists. split; [done|].
  split; [|split; [|split]].
  - rewrite parent_with_children. unfold Row.parent.
    by rewrite row_alter_eq.
  - unfold Row.children at 1. rewrite row_alter_eq by (by rewrite heap_length_alter).
    simpl. fold (Row.children (alter (Row.with_parent (Some p)) c h) p).
    by rewrite children_with_parent.
  - intros y Hy. rewrite parent_with_children. unfold Row.parent.
    by rewrite row_alter_ne.
  - intros y Hy. unfold Row.children at 1. rewrite row_alter_ne by done.
    fold (Row.children (alter (Row.with_parent (Some p)) c h) y).
    apply children_with_parent.
Qed.

Lemma relation_links_both_ways_witness :
  exists h',
    Row.set_child_parent_relation 1 0 heap_two_rows = (h', Ok tt) ∧
    Row.parent h' 1 = Some 0 ∧
    Row.children h' 0 = Row.children heap_two_rows 0 ++ [1] ∧
    (forall y, y ≠ 1 -> Row.parent h' y = Row.parent heap_two_rows y) ∧
    (forall y, y ≠ 0 -> Row.children h' y = Row.children heap_two_rows y).
Proof.
  apply (relation_links_both_ways heap_two_rows 1 0).
  - reflexivity.
  - discriminate.
  - apply (bool_decide_unpack _); by vm_compute.
  - simpl; lia.
  - simpl; lia.
Defined.

(** A row that has no parent and is not among its own children can be
    related to itself: [set_child_parent_relation] returns, the row is then
    its own parent and its own child, and from then on [get_parents] and
    [get_child_depth] on it end in [RecursionError] whatever the recursion
    limit. *)
Theorem self_relation_accepted (h : heap) (r : ref) :
  Row.parent h r = None -> r ∉ Row.children h r -> r < length h ->
  exists h',
    Row.set_child_parent_relation r r h = (h', Ok tt) ∧
    Row.parent h' r = Some r ∧
    r ∈ Row.children h' r ∧
    (forall limit acc s, (Row.get_parents limit h' r acc s).2 = Raise RecursionError) ∧
    (forall limit depth, Row.get_child_depth limit h' r depth = Raise RecursionError).
Proof.
  intros Hp Hin Hl.
  rewrite set_parent_then_add_child by (done || by rewrite Hp).
  unfold Row.add_child. rewrite children_with_parent.
  rewrite bool_decide_eq_false_2 by done.
  eexists. split; [done|].
  match goal with |- Row.parent ?x r = _ ∧ _ => set (h' := x) end.
  assert (Row.parent h' r = Some r) as Hpar.
  { unfold h'. rewrite parent_with_children. unfold Row.parent.
    by rewrite row_alter_eq. }
  assert (r ∈ Row.children h' r) as Hch.
  { unfold h', Row.children.
    rewrite row_alter_eq by (by rewrite heap_length_alter).
    simpl. apply elem_of_app. right. by left. }
  split; [done|]. split; [done|]. split.
  - induction limit as [|limit IH]; intros acc s; [done|].
    simpl. rewrite Hpar. unfold bind, Row.cons_new. apply IH.
  - induction limit as [|limit IH]; intros depth; [done|].
    simpl.
    destruct (child_depth_loop_raises
                (fun c => Row.get_child_depth limit h' c (depth + 1))
                (Row.children h' r) r Hch
                (ex_intro _ _ (IH (depth + 1))) depth) as [e He].
    rewrite He. f_equal.
    apply (get_child_depth_raise (S limit) h' r depth). exact He.
Qed.

Lemma self_relation_accepted_witness :
  exists h',
    Row.set_child_parent_relation 1 1 heap_two_rows = (h', Ok tt) ∧
    Row.parent h' 1 = Some 1 ∧
    1 ∈ Row.children h' 1 ∧
    (forall limit acc s, (Row.get_parents limit h' 1 acc s).2 = Raise RecursionError) ∧
    (forall limit depth, Row.get_child_depth limit h' 1 depth = Raise RecursionError).
Proof.
  apply (self_relation_accepted heap_two_rows 1).
  - reflexivity.
  - apply (bool_decide_unpack _); by vm_compute.
  - simpl; lia.
Defined.

(** [set_child_parent_relation] is not all or nothing: when the parent is
    already among the children of the child, [add_child] raises after the
    parent of the child has been set, and the heap is left with a child
    that names a parent whose children list does not hold it (unless it
    did before). *)
Theorem relation_half_done (h : heap) (c p : ref) :
  Row.parent h c = None -> Row.parent h p ≠ Some c ->
  p ∈ Row.children h c -> c < length h ->
  exists h',
    Row.set_child_parent_relation c p h = (h', Raise (ValueError Circular)) ∧
    Row.parent h' c = Some p ∧
    (forall y, Row.children h' y = Row.children h y).
Proof.
  intros Hc Hp Hin Hl.
  rewrite set_parent_then_add_child by done.
  unfold Row.add_child. rewrite children_with_parent.
  rewrite bool_decide_eq_true_2 by done.
  eexists. split; [done|]. split.
  - unfold Row.parent. by rewrite row_alter_eq.
  - intros y. apply children_with_parent.
Qed.

Lemma relation_half_done_witness :
  exists h',
    Row.set_child_parent_relation 0 1 (Row.add_child 0 (ORow 1) heap_two_rows).1
      = (h', Raise (ValueError Circular)) ∧
    Row.parent h' 0 = Some 1 ∧
    (forall y, Row.children h' y
               = Row.children (Row.add_child 0 (ORow 1) heap_two_rows).1 y).
Proof.
  apply (relation_half_done (Row.add_child 0 (ORow 1) heap_two_rows).1 0 1).
  - reflexivity.
  - discriminate.
  - apply (bool_decide_unpack _); by vm_compute.
  - simpl; lia.
Defined.

(** ** The first line of the header *)

(** [header_start] counts lines from one.  With [header_start = 0] the
    slice starts at the bound [-1], the last line: the result is read off
    the last line alone when [header_end] reaches the end of the file, and
    is empty when it does not. *)
Theorem header_start_zero (lines : list string) (header_end : Z) :
  (0 ≤ header_end)%Z ->
  Yutiming.get_yutiming_header_data lines 0 header_end =
    if (header_end <? Z.of_nat (length lines))%Z then ∅
    else match last lines with
         | Some line => Yutiming.header_line ∅ line
         | None => ∅
         end.
Proof.
  intros He. unfold Yutiming.get_yutiming_header_data, Yutiming.slice.
  change (0 - 1)%Z with (-1)%Z. unfold Yutiming.slice_bound.
  change (-1 <? 0)%Z with true. cbv iota.
  destruct (header_end <? 0)%Z eqn:Hneg; [lia|].
  destruct (header_end <? Z.of_nat (length lines))%Z eqn:Hlt.
  - apply Z.ltb_lt in Hlt.
    match goal with |- context [Z.to_nat (?a - ?b)] =>
      replace (Z.to_nat (a - b)) with 0 by lia end.
    done.
  - destruct (last lines) as [line|] eqn:Hlast.
    + apply last_Some in Hlast as [l' ->].
      rewrite length_app. simpl length.
      apply Z.ltb_ge in Hlt. rewrite length_app in Hlt. simpl length in Hlt.
      replace (Z.to_nat (Z.max _ 0)) with (length l') by lia.
      rewrite drop_app_length.
      match goal with |- context [Z.to_nat ?z] =>
        replace (Z.to_nat z) with 1 by lia end.
      done.
    + apply last_None in Hlast. subst lines. by rewrite drop_nil, take_nil.
Qed.

Lemma header_start_zero_witness :
  Yutiming.get_yutiming_header_data ["a 1.0"; "b 2.0"; "c: 3.5"] 0 9 =
    Yutiming.header_line ∅ "c: 3.5".
Proof.
  apply (header_start_zero ["a 1.0"; "b 2.0"; "c: 3.5"] 9). lia.
Defined.
